(** * RAGFlow: Redis connection wrapper, distributed lock and graph pipelines

    A shallow embedding of [rag/utils/redis_conn.py] and
    [graphrag/general/index.py].

    The Redis (valkey) server is the environment of the program.  It is
    modelled by an executable transition function over a keyspace, following
    the documented behaviour of the commands the program sends.  Time is an
    exact rational number of seconds; the only operations that let time pass
    are [time.sleep] and a blocking stream read that finds nothing.
    Transport failures are driven by an oracle carried in the world: a list
    that says, for each of the next calls, whether it raises and with which
    message. *)

From Stdlib Require Import ZArith QArith Qround Lqa Lia String List.
From stdpp Require Import gmap strings list pretty.

Local Open Scope string_scope.

(** ** Python values shared by both modules *)

Inductive result (A : Type) : Type :=
| Val (a : A)
| Exc (msg : string).
Arguments Val {A} a.
Arguments Exc {A} msg.

(** [needle in hay] on Python strings. *)
Fixpoint contains (needle hay : string) : bool :=
  if String.prefix needle hay then true
  else match hay with
       | EmptyString => false
       | String _ rest => contains needle rest
       end.

(** ** The Redis server *)

(** A stream id [ms-seq]. *)
Definition stream_id : Type := N * N.

Definition id_ltb (a b : stream_id) : bool :=
  (a.1 <? b.1)%N || ((a.1 =? b.1)%N && (a.2 <? b.2)%N).

Definition id_leb (a b : stream_id) : bool := negb (id_ltb b a).

Definition id_eqb (a b : stream_id) : bool :=
  (a.1 =? b.1)%N && (a.2 =? b.2)%N.

Record entry : Type := mkEntry {
  e_id : stream_id;
  e_fields : list (string * string)
}.

(** One line of a group's pending-entries list. *)
Record pending : Type := mkPending {
  p_id : stream_id;
  p_consumer : string
}.

Record group : Type := mkGroup {
  g_name : string;
  g_last_delivered : stream_id;
  g_pel : list pending
}.

Record stream : Type := mkStream {
  s_entries : list entry;
  s_last_id : stream_id;
  s_groups : list group
}.

Inductive rvalue : Type :=
| RString (v : string)
| RSet (members : gset string)
| RZSet (scored : list (string * Q))
| RStream (st : stream).

(** A key with its optional absolute expiry time. *)
Record slot : Type := mkSlot {
  sl_value : rvalue;
  sl_expire : option Q
}.

(** The script sent by [release_lock]:
<<
    if redis.call("get",KEYS[1]) == ARGV[1] then
        return redis.call("del",KEYS[1])
    else
        return 0
    end
>> *)
Inductive lua_script : Type := UnlockScript.

(** How the program names the entries a group read asks for: [">"] (only
    entries never delivered to the group) or an explicit id (the consumer's
    own pending entries after that id). *)
Inductive read_from : Type :=
| NewEntries
| After (i : stream_id).

Inductive command : Type :=
| Ping
| ClientList
| Exists (k : string)
| Get (k : string)
| SetEx (k v : string) (ex : Z) (nx : bool)
| Ttl (k : string)
| Del (k : string)
| Eval (script : lua_script) (key arg : string)
| SAdd (k m : string)
| SRem (k m : string)
| SMembers (k : string)
| ZAdd (k m : string) (score : Q)
| ZCount (k : string) (lo hi : Q)
| ZPopMin (k : string) (count : nat)
| ZRangeByScore (k : string) (lo hi : Q)
| XAdd (k : string) (fields : list (string * string))
| XInfoGroups (k : string)
| XGroupCreate (k g : string) (start : stream_id) (mkstream : bool)
| XReadGroup (g c : string) (count : nat) (block_ms : Z) (k : string) (from : read_from)
| XAck (k g : string) (i : stream_id)
| XPendingRange (k g : string) (lo hi : N) (count : nat) (consumer : string)
| XRange (k : string) (lo : stream_id) (count : nat).

(** The attribute of the client object a command is sent through. *)
Definition method_name (c : command) : string :=
  match c with
  | Ping => "ping" | ClientList => "client_list" | Exists _ => "exists"
  | Get _ => "get" | SetEx _ _ _ _ => "set" | Ttl _ => "ttl" | Del _ => "delete"
  | Eval _ _ _ => "eval" | SAdd _ _ => "sadd" | SRem _ _ => "srem"
  | SMembers _ => "smembers" | ZAdd _ _ _ => "zadd" | ZCount _ _ _ => "zcount"
  | ZPopMin _ _ => "zpopmin" | ZRangeByScore _ _ _ => "zrangebyscore"
  | XAdd _ _ => "xadd" | XInfoGroups _ => "xinfo_groups"
  | XGroupCreate _ _ _ _ => "xgroup_create" | XReadGroup _ _ _ _ _ _ => "xreadgroup"
  | XAck _ _ _ => "xack" | XPendingRange _ _ _ _ _ _ => "xpending_range"
  | XRange _ _ _ => "xrange"
  end.

Record group_info : Type := mkGroupInfo {
  gi_name : string;
  gi_pending : nat;
  gi_last_delivered : stream_id
}.

Inductive reply : Type :=
| RTrue
| RNone
| RInt (z : Z)
| RStr (s : string)
| RMembers (s : gset string)
| RScored (l : list (string * Q))
| RNames (l : list string)
| RGroups (l : list group_info)
| REntries (l : list entry)
| RStreams (l : list (string * list entry))
| RPendings (l : list pending)
| RId (i : stream_id)
| RClients (n : nat).

Definition WRONGTYPE : string :=
  "WRONGTYPE Operation against a key holding the wrong kind of value".

Definition NOGROUP (k g : string) : string :=
  "NOGROUP No such key '" +:+ k +:+ "' or consumer group '" +:+ g +:+ "'".

Record server : Type := mkServer {
  keyspace : gmap string slot;
  now : Q;
  clients : nat
}.

Definition live (t : Q) (sl : slot) : bool :=
  match sl_expire sl with
  | None => true
  | Some e => if Qlt_le_dec t e then true else false
  end.

(** The value a command sees under key [k]: an expired key is absent. *)
Definition peek (s : server) (k : string) : option rvalue :=
  match keyspace s !! k with
  | Some sl => if live (now s) sl then Some (sl_value sl) else None
  | None => None
  end.

Definition put (k : string) (v : rvalue) (e : option Q) (s : server) : server :=
  mkServer (<[k := mkSlot v e]> (keyspace s)) (now s) (clients s).

(** Overwrite the value, keeping the expiry the key has. *)
Definition store (k : string) (v : rvalue) (s : server) : server :=
  match keyspace s !! k with
  | Some sl => if live (now s) sl then put k v (sl_expire sl) s else put k v None s
  | None => put k v None s
  end.

Definition forget (k : string) (s : server) : server :=
  mkServer (delete k (keyspace s)) (now s) (clients s).

(** Let [d] seconds pass; the clock is kept in lowest terms. *)
Definition tick (d : Q) (s : server) : server :=
  mkServer (keyspace s) (Qred (now s + d)) (clients s).

(** *** Strings *)

Definition srv_exists (k : string) (s : server) : result reply * server :=
  (Val (RInt (if peek s k is Some _ then 1 else 0)), s).

Definition srv_get (k : string) (s : server) : result reply * server :=
  match peek s k with
  | None => (Val RNone, s)
  | Some (RString v) => (Val (RStr v), s)
  | Some _ => (Exc WRONGTYPE, s)
  end.

(** [SET k v EX ex [NX]]. *)
Definition srv_set (k v : string) (ex : Z) (nx : bool) (s : server)
  : result reply * server :=
  if (ex <=? 0)%Z then (Exc "invalid expire time in 'set' command", s)
  else if nx && (if peek s k is Some _ then true else false) then (Val RNone, s)
  else (Val RTrue, put k (RString v) (Some (now s + inject_Z ex)%Q) s).

Definition srv_ttl (k : string) (s : server) : result reply * server :=
  match keyspace s !! k with
  | Some sl =>
      if live (now s) sl then
        match sl_expire sl with
        | None => (Val (RInt (-1)), s)
        | Some e => (Val (RInt (Qfloor (e - now s + (1 # 2))%Q)), s)
        end
      else (Val (RInt (-2)), s)
  | None => (Val (RInt (-2)), s)
  end.

Definition srv_del (k : string) (s : server) : result reply * server :=
  match peek s k with
  | Some _ => (Val (RInt 1), forget k s)
  | None => (Val (RInt 0), s)
  end.

(** A script runs as one command: nothing else is served between its
    [redis.call]s. *)
Definition srv_eval (sc : lua_script) (key arg : string) (s : server)
  : result reply * server :=
  match sc with
  | UnlockScript =>
      match srv_get key s with
      | (Exc e, s') => (Exc e, s')
      | (Val r, s') =>
          match r with
          | RStr v => if String.eqb v arg then srv_del key s' else (Val (RInt 0), s')
          | _ => (Val (RInt 0), s')
          end
      end
  end.

(** *** Sets *)

Definition srv_sadd (k m : string) (s : server) : result reply * server :=
  match peek s k with
  | None => (Val (RInt 1), put k (RSet {[ m ]}) None s)
  | Some (RSet ms) =>
      (Val (RInt (if bool_decide (m ∈ ms) then 0 else 1)), store k (RSet ({[ m ]} ∪ ms)) s)
  | Some _ => (Exc WRONGTYPE, s)
  end.

Definition srv_srem (k m : string) (s : server) : result reply * server :=
  match peek s k with
  | None => (Val (RInt 0), s)
  | Some (RSet ms) =>
      let ms' := ms ∖ {[ m ]} in
      (Val (RInt (if bool_decide (m ∈ ms) then 1 else 0)),
       if bool_decide (ms' = ∅) then forget k s else store k (RSet ms') s)
  | Some _ => (Exc WRONGTYPE, s)
  end.

Definition srv_smembers (k : string) (s : server) : result reply * server :=
  match peek s k with
  | None => (Val (RMembers ∅), s)
  | Some (RSet ms) => (Val (RMembers ms), s)
  | Some _ => (Exc WRONGTYPE, s)
  end.

(** *** Sorted sets, kept in (score, member) order *)

Definition scored_leb (a b : string * Q) : bool :=
  if Qle_bool a.2 b.2 then (if Qle_bool b.2 a.2 then String.leb a.1 b.1 else true)
  else false.

Fixpoint zinsert (x : string * Q) (l : list (string * Q)) : list (string * Q) :=
  match l with
  | [] => [x]
  | y :: l' => if scored_leb x y then x :: y :: l' else y :: zinsert x l'
  end.

Definition zremove (m : string) (l : list (string * Q)) : list (string * Q) :=
  List.filter (fun y => negb (String.eqb y.1 m)) l.

Definition in_range (lo hi : Q) (y : string * Q) : bool :=
  Qle_bool lo y.2 && Qle_bool y.2 hi.

Definition srv_zadd (k m : string) (score : Q) (s : server) : result reply * server :=
  match peek s k with
  | None => (Val (RInt 1), put k (RZSet [(m, score)]) None s)
  | Some (RZSet l) =>
      (Val (RInt (if existsb (fun y => String.eqb y.1 m) l then 0 else 1)),
       store k (RZSet (zinsert (m, score) (zremove m l))) s)
  | Some _ => (Exc WRONGTYPE, s)
  end.

Definition srv_zcount (k : string) (lo hi : Q) (s : server) : result reply * server :=
  match peek s k with
  | None => (Val (RInt 0), s)
  | Some (RZSet l) => (Val (RInt (Z.of_nat (length (List.filter (in_range lo hi) l)))), s)
  | Some _ => (Exc WRONGTYPE, s)
  end.

Definition srv_zpopmin (k : string) (count : nat) (s : server) : result reply * server :=
  match peek s k with
  | None => (Val (RScored []), s)
  | Some (RZSet l) =>
      (Val (RScored (take count l)),
       match drop count l with
       | [] => forget k s
       | rest => store k (RZSet rest) s
       end)
  | Some _ => (Exc WRONGTYPE, s)
  end.

Definition srv_zrangebyscore (k : string) (lo hi : Q) (s : server)
  : result reply * server :=
  match peek s k with
  | None => (Val (RNames []), s)
  | Some (RZSet l) => (Val (RNames (map fst (List.filter (in_range lo hi) l))), s)
  | Some _ => (Exc WRONGTYPE, s)
  end.

(** *** Streams and consumer groups *)

Definition empty_stream : stream := mkStream [] (0%N, 0%N) [].

(** The server's clock in milliseconds, the first half of a generated id. *)
Definition ms_now (s : server) : N := Z.to_N (Qfloor (now s * 1000)%Q).

(** The id [XADD key *] generates: always above the stream's last id. *)
Definition next_id (t : N) (last : stream_id) : stream_id :=
  if (last.1 <? t)%N then (t, 0%N) else (last.1, (last.2 + 1)%N).

Definition find_group (g : string) (st : stream) : option group :=
  List.find (fun x => String.eqb (g_name x) g) (s_groups st).

Definition set_group (x : group) (st : stream) : stream :=
  mkStream (s_entries st) (s_last_id st)
    (map (fun y => if String.eqb (g_name y) (g_name x) then x else y) (s_groups st)).

(** The pending-entries list is ordered by id. *)
Fixpoint pel_insert (p : pending) (l : list pending) : list pending :=
  match l with
  | [] => [p]
  | q :: l' =>
      if id_ltb (p_id p) (p_id q) then p :: q :: l'
      else if id_eqb (p_id p) (p_id q) then p :: l'
      else q :: pel_insert p l'
  end.

(** Hand entries [es] to consumer [c]: they join the pending list and the
    group's last-delivered id moves to the last of them. *)
Definition deliver (c : string) (es : list entry) (x : group) : group :=
  mkGroup (g_name x)
    (match last es with Some e => e_id e | None => g_last_delivered x end)
    (fold_left (fun l e => pel_insert (mkPending (e_id e) c) l) es (g_pel x)).

Definition entry_of (st : stream) (i : stream_id) : entry :=
  match List.find (fun e => id_eqb (e_id e) i) (s_entries st) with
  | Some e => e
  | None => mkEntry i []
  end.

Definition group_summary (x : group) : group_info :=
  mkGroupInfo (g_name x) (length (g_pel x)) (g_last_delivered x).

Definition srv_xadd (k : string) (fields : list (string * string)) (s : server)
  : result reply * server :=
  let append st :=
    let i := next_id (ms_now s) (s_last_id st) in
    (Val (RId i),
     store k (RStream (mkStream (s_entries st ++ [mkEntry i fields]) i (s_groups st))) s) in
  match peek s k with
  | None => append empty_stream
  | Some (RStream st) => append st
  | Some _ => (Exc WRONGTYPE, s)
  end.

Definition srv_xinfo_groups (k : string) (s : server) : result reply * server :=
  match peek s k with
  | None => (Exc "no such key", s)
  | Some (RStream st) => (Val (RGroups (map group_summary (s_groups st))), s)
  | Some _ => (Exc WRONGTYPE, s)
  end.

Definition srv_xgroup_create (k g : string) (start : stream_id) (mkstream : bool)
    (s : server) : result reply * server :=
  let create st :=
    match find_group g st with
    | Some _ => (Exc "BUSYGROUP Consumer Group name already exists", s)
    | None =>
        (Val RTrue,
         store k (RStream (mkStream (s_entries st) (s_last_id st)
                             (s_groups st ++ [mkGroup g start []]))) s)
    end in
  match peek s k with
  | None =>
      if mkstream then create empty_stream
      else (Exc ("The XGROUP subcommand requires the key to exist. Note that for "
                 +:+ "CREATE you may want to use the MKSTREAM option to create an "
                 +:+ "empty stream automatically."), s)
  | Some (RStream st) => create st
  | Some _ => (Exc WRONGTYPE, s)
  end.

(** [XREADGROUP GROUP g c COUNT count BLOCK block_ms STREAMS k from].  A read
    of new entries that finds none waits for the whole block time and then
    answers nothing. *)
Definition srv_xreadgroup (g c : string) (count : nat) (block_ms : Z) (k : string)
    (from : read_from) (s : server) : result reply * server :=
  let nogroup := Exc (NOGROUP k g +:+ " in XREADGROUP with GROUP option") in
  match peek s k with
  | None => (nogroup, s)
  | Some (RStream st) =>
      match find_group g st with
      | None => (nogroup, s)
      | Some x =>
          match from with
          | NewEntries =>
              match take count (List.filter
                                  (fun e => id_ltb (g_last_delivered x) (e_id e))
                                  (s_entries st)) with
              | [] => (Val RNone, tick (inject_Z block_ms / 1000)%Q s)
              | es =>
                  (Val (RStreams [(k, es)]),
                   store k (RStream (set_group (deliver c es x) st)) s)
              end
          | After i =>
              let mine :=
                List.filter (fun p => String.eqb (p_consumer p) c && id_ltb i (p_id p))
                            (g_pel x) in
              (Val (RStreams [(k, map (fun p => entry_of st (p_id p)) (take count mine))]), s)
          end
      end
  | Some _ => (Exc WRONGTYPE, s)
  end.

Definition srv_xack (k g : string) (i : stream_id) (s : server)
  : result reply * server :=
  match peek s k with
  | Some (RStream st) =>
      match find_group g st with
      | None => (Val (RInt 0), s)
      | Some x =>
          let keep := List.filter (fun p => negb (id_eqb (p_id p) i)) (g_pel x) in
          (Val (RInt (Z.of_nat (length (g_pel x) - length keep))),
           store k (RStream (set_group (mkGroup (g_name x) (g_last_delivered x) keep) st)) s)
      end
  | Some _ => (Exc WRONGTYPE, s)
  | None => (Val (RInt 0), s)
  end.

(** [XPENDING k g lo hi count consumer]: ids given without a sequence part
    bound the millisecond part of the ids listed. *)
Definition srv_xpending_range (k g : string) (lo hi : N) (count : nat)
    (consumer : string) (s : server) : result reply * server :=
  match peek s k with
  | None => (Exc (NOGROUP k g), s)
  | Some (RStream st) =>
      match find_group g st with
      | None => (Exc (NOGROUP k g), s)
      | Some x =>
          (Val (RPendings
                  (take count
                     (List.filter
                        (fun p => String.eqb (p_consumer p) consumer
                                  && (lo <=? (p_id p).1)%N && ((p_id p).1 <=? hi)%N)
                        (g_pel x)))), s)
      end
  | Some _ => (Exc WRONGTYPE, s)
  end.

(** [XRANGE k lo + COUNT count]. *)
Definition srv_xrange (k : string) (lo : stream_id) (count : nat) (s : server)
  : result reply * server :=
  match peek s k with
  | None => (Val (REntries []), s)
  | Some (RStream st) =>
      (Val (REntries (take count (List.filter (fun e => id_leb lo (e_id e)) (s_entries st)))), s)
  | Some _ => (Exc WRONGTYPE, s)
  end.

(** One command served. *)
Definition exec (c : command) (s : server) : result reply * server :=
  match c with
  | Ping => (Val RTrue, s)
  | ClientList => (Val (RClients (clients s)), s)
  | Exists k => srv_exists k s
  | Get k => srv_get k s
  | SetEx k v ex nx => srv_set k v ex nx s
  | Ttl k => srv_ttl k s
  | Del k => srv_del k s
  | Eval sc key arg => srv_eval sc key arg s
  | SAdd k m => srv_sadd k m s
  | SRem k m => srv_srem k m s
  | SMembers k => srv_smembers k s
  | ZAdd k m score => srv_zadd k m score s
  | ZCount k lo hi => srv_zcount k lo hi s
  | ZPopMin k count => srv_zpopmin k count s
  | ZRangeByScore k lo hi => srv_zrangebyscore k lo hi s
  | XAdd k fields => srv_xadd k fields s
  | XInfoGroups k => srv_xinfo_groups k s
  | XGroupCreate k g start mk => srv_xgroup_create k g start mk s
  | XReadGroup g c count block k from => srv_xreadgroup g c count block k from s
  | XAck k g i => srv_xack k g i s
  | XPendingRange k g lo hi count consumer => srv_xpending_range k g lo hi count consumer s
  | XRange k lo count => srv_xrange k lo count s
  end.

(** ** The world a process runs in *)

Inductive level : Type := DEBUG | INFO | WARNING | ERROR.

(** What a [logging] call writes.  Messages built from strings alone are
    rendered; those that format numbers keep their parts. *)
Inductive log_text : Type :=
| Text (s : string)
| LockAcquired (key : string) (attempt : nat)
| LockContention (key : string) (holder ttl_remaining : reply) (attempt : nat)
| AcquireFailed (key : string) (timeout : Q) (holder ttl_remaining : reply) (nclients : nat)
| ReleaseMismatch (key expected : string) (actual : reply).

Record world : Type := mkWorld {
  srv : server;
  (** what happens to the next calls on the connection: [Some msg] raises *)
  faults : list (option string);
  (** every command sent through a client object, newest first *)
  sent : list command;
  (** the log, newest first *)
  logs : list (level * log_text);
  (** [REDIS_CONN.REDIS]: the client object, numbered by the [__open__] that built it *)
  REDIS : option nat;
  (** whether [settings.REDIS] lets [redis.StrictRedis(...)] be built *)
  config_ok : bool;
  (** how many times [__open__] ran *)
  opens : nat;
  (** every [time.sleep]: when it began and how long it lasted, newest first *)
  naps : list (Q * Q)
}.

Definition with_srv (s : server) (w : world) : world :=
  mkWorld s (faults w) (sent w) (logs w) (REDIS w) (config_ok w) (opens w) (naps w).
Definition with_faults (f : list (option string)) (w : world) : world :=
  mkWorld (srv w) f (sent w) (logs w) (REDIS w) (config_ok w) (opens w) (naps w).
Definition with_sent (c : command) (w : world) : world :=
  mkWorld (srv w) (faults w) (c :: sent w) (logs w) (REDIS w) (config_ok w) (opens w) (naps w).
Definition with_log (l : level * log_text) (w : world) : world :=
  mkWorld (srv w) (faults w) (sent w) (l :: logs w) (REDIS w) (config_ok w) (opens w) (naps w).
Definition with_REDIS (r : option nat) (w : world) : world :=
  mkWorld (srv w) (faults w) (sent w) (logs w) r (config_ok w) (opens w) (naps w).
Definition with_opens (n : nat) (w : world) : world :=
  mkWorld (srv w) (faults w) (sent w) (logs w) (REDIS w) (config_ok w) n (naps w).
Definition with_nap (t d : Q) (w : world) : world :=
  mkWorld (tick d (srv w)) (faults w) (sent w) (logs w) (REDIS w) (config_ok w) (opens w)
    ((t, d) :: naps w).

(** ** Computations: state, Python exceptions, and the fuel of the one loop
    whose length depends on the clock *)

Inductive outcome (A : Type) : Type :=
| Ret (a : A)
| Raise (msg : string)
| OutOfFuel.
Arguments Ret {A} a.
Arguments Raise {A} msg.
Arguments OutOfFuel {A}.

Definition St (S A : Type) : Type := S → outcome A * S.

Definition ret {S A} (a : A) : St S A := fun w => (Ret a, w).
Definition raise {S A} (msg : string) : St S A := fun w => (Raise msg, w).
Definition bind {S A B} (m : St S A) (f : A → St S B) : St S B :=
  fun w => match m w with
           | (Ret a, w') => f a w'
           | (Raise e, w') => (Raise e, w')
           | (OutOfFuel, w') => (OutOfFuel, w')
           end.

Notation "'let*' x ':=' m 'in' f" := (bind m (fun x => f))
  (at level 10, x pattern, m at level 100, f at level 200, only parsing).
Notation "m >> f" := (bind m (fun _ => f))
  (at level 100, f at level 200, right associativity, only parsing).

(** [try: body  except Exception as e: handler e]. *)
Definition try_except {S A} (body : St S A) (handler : string → St S A) : St S A :=
  fun w => match body w with
           | (Raise e, w') => handler e w'
           | r => r
           end.

(** [try: body  finally: cleanup].  The cleanup here never raises. *)
Definition try_finally {S A} (body : St S A) (cleanup : S → S) : St S A :=
  fun w => let (r, w') := body w in (r, cleanup w').

Definition M : Type → Type := St world.

Definition logging (l : level) (t : log_text) : M unit :=
  fun w => (Ret tt, with_log (l, t) w).

(** [logging.exception] logs at level ERROR. *)
Definition logging_exception (t : log_text) : M unit := logging ERROR t.

Definition time_time : M Q := fun w => (Ret (now (srv w)), w).

Definition time_sleep (d : Q) : M unit :=
  fun w => (Ret tt, with_nap (now (srv w)) d w).

(** A call through a client object: it consults the fault oracle, and if
    the transport holds, the server serves the command. *)
Definition client_call (c : command) : M reply :=
  fun w =>
    let serve w :=
      let (r, s') := exec c (srv w) in
      (match r with Val v => Ret v | Exc e => Raise e end, with_srv s' (with_sent c w)) in
    match faults w with
    | Some msg :: rest => (Raise msg, with_faults rest (with_sent c w))
    | None :: rest => serve (with_faults rest w)
    | [] => serve w
    end.

(** [self.REDIS.<method>(...)]: attribute access on [None] raises
    AttributeError. *)
Definition redis_call (c : command) : M reply :=
  fun w =>
    match REDIS w with
    | None => (Raise ("'NoneType' object has no attribute '" +:+ method_name c +:+ "'"), w)
    | Some _ => client_call c w
    end.

(** [pipeline = self.REDIS.pipeline(...)], one buffered command, then
    [pipeline.execute()]. *)
Definition redis_pipeline (c : command) : M reply :=
  fun w =>
    match REDIS w with
    | None => (Raise "'NoneType' object has no attribute 'pipeline'", w)
    | Some _ => client_call c w
    end.

(** ** [rag/utils/redis_conn.py] *)

Section redis_conn.

(** The objects [json] can serialise, with [json.dumps] (by its
    [ensure_ascii] flag) and [json.loads], which raises on text that is not
    JSON. *)
Variable pyobj : Type.
Variable json_dumps : bool → pyobj → string.
Variable json_loads : string → result pyobj.

(** *** class Payload *)

Record Payload : Type := mkPayload {
  __consumer : option nat;
  __queue_name : string;
  __group_name : string;
  __msg_id : stream_id;
  __message : pyobj
}.

(** [message["message"]] on the field dictionary of a stream entry. *)
Definition getitem (key : string) (d : list (string * string)) : result string :=
  match List.find (fun kv => String.eqb kv.1 key) d with
  | Some kv => Val kv.2
  | None => Exc ("'" +:+ key +:+ "'")
  end.

Definition Payload__init__ (consumer : option nat) (queue_name group_name : string)
    (msg_id : stream_id) (message : list (string * string)) : M Payload :=
  match getitem "message" message with
  | Exc e => raise e
  | Val text =>
      match json_loads text with
      | Exc e => raise e
      | Val m => ret (mkPayload consumer queue_name group_name msg_id m)
      end
  end.

Definition ack (self : Payload) : M bool :=
  try_except
    (match __consumer self with
     | Some _ => client_call (XAck (__queue_name self) (__group_name self) (__msg_id self))
     | None => raise "'NoneType' object has no attribute 'xack'"
     end >>
     ret true)
    (fun e =>
       logging WARNING (Text ("[EXCEPTION]ack" +:+ __queue_name self +:+ "||" +:+ e)) >>
       ret false).

Definition get_message (self : Payload) : pyobj := __message self.

(** *** class RedisDB (a singleton: its fields live in the world) *)

Definition __open__ : M (option nat) :=
  fun w =>
    let w := with_opens (S (opens w)) w in
    let w := if config_ok w then with_REDIS (Some (opens w)) w
             else with_log (WARNING, Text "Redis can't be connected.") w in
    (Ret (REDIS w), w).

Definition is_alive : M bool := fun w => (Ret (if REDIS w is Some _ then true else false), w).

(** [health]: nothing is caught here, and without the expected value the
    method falls off its end, returning [None]. *)
Definition health : M (option bool) :=
  redis_call Ping >>
  let (a, b) := ("xx", "yy") in
  redis_call (SetEx a b 3 false) >>
  let* got := redis_call (Get a) in
  if got is RStr v then (if String.eqb v b then ret (Some true) else ret None)
  else ret None.

Definition got_exception (op key e : string) : log_text :=
  Text ("RedisDB." +:+ op +:+ " " +:+ key +:+ " got exception: " +:+ e).

Definition exist (k : string) : M reply :=
  fun w =>
    match REDIS w with
    | None => (Ret RNone, w)
    | Some _ =>
        try_except (redis_call (Exists k))
          (fun e => logging WARNING (got_exception "exist" k e) >> __open__ >> ret RNone) w
    end.

Definition get (k : string) : M reply :=
  fun w =>
    match REDIS w with
    | None => (Ret RNone, w)
    | Some _ =>
        try_except (redis_call (Get k))
          (fun e => logging WARNING (got_exception "get" k e) >> __open__ >> ret RNone) w
    end.

Definition set_obj (k : string) (obj : pyobj) (exp : Z) : M bool :=
  try_except
    (redis_call (SetEx k (json_dumps false obj) exp false) >> ret true)
    (fun e => logging WARNING (got_exception "set_obj" k e) >> __open__ >> ret false).

Definition set (k v : string) (exp : Z) : M bool :=
  try_except
    (redis_call (SetEx k v exp false) >> ret true)
    (fun e => logging WARNING (got_exception "set" k e) >> __open__ >> ret false).

Definition sadd (key member : string) : M bool :=
  try_except
    (redis_call (SAdd key member) >> ret true)
    (fun e => logging WARNING (got_exception "sadd" key e) >> __open__ >> ret false).

Definition srem (key member : string) : M bool :=
  try_except
    (redis_call (SRem key member) >> ret true)
    (fun e => logging WARNING (got_exception "srem" key e) >> __open__ >> ret false).

Definition smembers (key : string) : M reply :=
  try_except
    (let* res := redis_call (SMembers key) in ret res)
    (fun e => logging WARNING (got_exception "smembers" key e) >> __open__ >> ret RNone).

Definition zadd (key member : string) (score : Q) : M bool :=
  try_except
    (redis_call (ZAdd key member score) >> ret true)
    (fun e => logging WARNING (got_exception "zadd" key e) >> __open__ >> ret false).

Definition zcount (key : string) (min max : Q) : M reply :=
  try_except
    (let* res := redis_call (ZCount key min max) in ret res)
    (fun e => logging WARNING (got_exception "zcount" key e) >> __open__ >> ret (RInt 0)).

Definition zpopmin (key : string) (count : nat) : M reply :=
  try_except
    (let* res := redis_call (ZPopMin key count) in ret res)
    (fun e => logging WARNING (got_exception "zpopmin" key e) >> __open__ >> ret RNone).

Definition zrangebyscore (key : string) (min max : Q) : M reply :=
  try_except
    (let* res := redis_call (ZRangeByScore key min max) in ret res)
    (fun e => logging WARNING (got_exception "zrangebyscore" key e) >> __open__ >> ret RNone).

Definition transaction (key value : string) (exp : Z) : M bool :=
  try_except
    (redis_pipeline (SetEx key value exp true) >> ret true)
    (fun e => logging WARNING (got_exception "transaction" key e) >> __open__ >> ret false).

Fixpoint queue_product_from (attempts : nat) (queue : string) (message : pyobj)
  : M bool :=
  match attempts with
  | O => ret false
  | S attempts' =>
      let* sent_ := try_except
                      (redis_pipeline (XAdd queue [("message", json_dumps true message)]) >>
                       ret true)
                      (fun e =>
                         logging_exception (got_exception "queue_product" queue e) >>
                         ret false) in
      if sent_ : bool then ret true else queue_product_from attempts' queue message
  end.

(** [for _ in range(3)]. *)
Definition queue_product (queue : string) (message : pyobj) : M bool :=
  queue_product_from 3 queue message.

Definition self_REDIS : M (option nat) := fun w => (Ret (REDIS w), w).

Definition has_group (group_name : string) (group_info : list group_info) : bool :=
  existsb (fun e => String.eqb (gi_name e) group_name) group_info.

Definition queue_consumer (queue_name group_name consumer_name : string)
    (msg_id : read_from) : M (option Payload) :=
  try_except
    (let* group_info := redis_call (XInfoGroups queue_name) in
     match group_info with
     | RGroups group_info =>
         (if negb (has_group group_name group_info)
          then redis_call (XGroupCreate queue_name group_name (0%N, 0%N) true) >> ret tt
          else ret tt) >>
         let* messages :=
           redis_call (XReadGroup group_name consumer_name 1 10000 queue_name msg_id) in
         match messages with
         | RStreams ((stream, element_list) :: _) =>
             match element_list with
             | e :: _ =>
                 let* client := self_REDIS in
                 let* res := Payload__init__ client queue_name group_name
                               (e_id e) (e_fields e) in
                 ret (Some res)
             | [] => raise "list index out of range"
             end
         | _ => ret None
         end
     | _ => raise "object is not iterable"
     end)
    (fun e =>
       (if contains "key" e then ret tt
        else logging_exception (got_exception "queue_consumer" queue_name e)) >>
       ret None).

Definition get_unacked_for (consumer_name queue_name group_name : string)
  : M (option Payload) :=
  try_except
    (let* group_info := redis_call (XInfoGroups queue_name) in
     match group_info with
     | RGroups group_info =>
         if negb (has_group group_name group_info) then ret None
         else
           let* pendings :=
             redis_call (XPendingRange queue_name group_name 0 10000000000000 1
                           consumer_name) in
           match pendings with
           | RPendings (p :: _) =>
               let msg_id := p_id p in
               let* msg := redis_call (XRange queue_name msg_id 1) in
               match msg with
               | REntries (e :: _) =>
                   let* client := self_REDIS in
                   let* res := Payload__init__ client queue_name group_name
                                 msg_id (e_fields e) in
                   ret (Some res)
               | _ => raise "list index out of range"
               end
           | _ => ret None
           end
     | _ => raise "object is not iterable"
     end)
    (fun e =>
       if contains "key" e then ret None
       else
         logging_exception (got_exception "get_unacked_for" consumer_name e) >>
         __open__ >>
         ret None).

Definition queue_info (queue group_name : string) : M (option group_info) :=
  try_except
    (let* groups := redis_call (XInfoGroups queue) in
     match groups with
     | RGroups groups =>
         ret (List.find (fun g => String.eqb (gi_name g) group_name) groups)
     | _ => raise "object is not iterable"
     end)
    (fun e => logging WARNING (got_exception "queue_info" queue e) >> ret None).

End redis_conn.

Arguments mkPayload {pyobj}.
Arguments __consumer {pyobj}.
Arguments __queue_name {pyobj}.
Arguments __group_name {pyobj}.
Arguments __msg_id {pyobj}.
Arguments __message {pyobj}.
Arguments ack {pyobj}.
Arguments get_message {pyobj}.

(** *** class RedisDistributedLock *)

Record RedisDistributedLock : Type := mkLock {
  lock_key : string;
  lock_value : string;
  ttl : Z;
  acquire_timeout : Q;
  _lock_acquired : bool
}.

(** [__init__(lock_key, ttl=60*40, timeout=10)]; [uuid4] is the string
    [str(uuid.uuid4())] drew. *)
Definition RedisDistributedLock__init__ (uuid4 lock_key : string) (ttl : Z) (timeout : Q)
  : RedisDistributedLock :=
  mkLock lock_key uuid4 ttl timeout false.

Definition default_ttl : Z := 60 * 40.
Definition default_timeout : Q := 10.

(** Methods run on [self] and the world. *)
Definition Lk : Type → Type := St (RedisDistributedLock * world).

Definition io {A} (m : M A) : Lk A :=
  fun st => let (r, w') := m st.2 in (r, (st.1, w')).

Definition self_ : Lk RedisDistributedLock := fun st => (Ret st.1, st).

Definition set_lock_acquired (b : bool) (st : RedisDistributedLock * world)
  : RedisDistributedLock * world :=
  (mkLock (lock_key st.1) (lock_value st.1) (ttl st.1) (acquire_timeout st.1) b, st.2).

(** A static method: it knows no token. *)
Definition clean_lock (lock_key : string) : M unit :=
  redis_call (Del lock_key) >> ret tt.

(** Python truth of what the client hands back. *)
Definition truthy (r : reply) : bool :=
  match r with
  | RTrue => true
  | RNone => false
  | RInt z => negb (z =? 0)%Z
  | RStr s => negb (String.eqb s "")
  | RMembers s => negb (bool_decide (s = ∅))
  | RScored l => if l is [] then false else true
  | RNames l => if l is [] then false else true
  | RGroups l => if l is [] then false else true
  | REntries l => if l is [] then false else true
  | RStreams l => if l is [] then false else true
  | RPendings l => if l is [] then false else true
  | RId _ => true
  | RClients n => negb (n =? 0)%nat
  end.

(** [max(a, b)] on numbers: the first argument unless the second is larger. *)
Definition pymax (a b : Q) : Q := if Qlt_le_dec a b then b else a.

Definition len_clients (r : reply) : nat := if r is RClients n then n else 0%nat.

(** The [while time.time() < end_time] loop of [acquire_lock]; [fuel] bounds
    the number of times the condition is evaluated. *)
Fixpoint acquire_loop (fuel : nat) (end_time : Q) (attempt : nat) : Lk bool :=
  match fuel with
  | O => fun st => (OutOfFuel, st)
  | S fuel' =>
      let* self := self_ in
      let* t := io time_time in
      if Qlt_le_dec t end_time then
        let attempt := S attempt in
        let* acquired :=
          io (redis_call (SetEx (lock_key self) (lock_value self) (ttl self) true)) in
        if truthy acquired then
          io (logging DEBUG (LockAcquired (lock_key self) attempt)) >>
          (fun st => (Ret tt, set_lock_acquired true st)) >>
          ret true
        else
          let* current_value := io (redis_call (Get (lock_key self))) in
          let* ttl_remaining := io (redis_call (Ttl (lock_key self))) in
          io (logging WARNING
                (LockContention (lock_key self) current_value ttl_remaining attempt)) >>
          let* t' := io time_time in
          io (time_sleep (pymax (1 # 10) ((end_time - t') / 10))) >>
          acquire_loop fuel' end_time attempt
      else
        let* current_value := io (redis_call (Get (lock_key self))) in
        let* ttl_remaining := io (redis_call (Ttl (lock_key self))) in
        let* clients := io (redis_call ClientList) in
        io (logging ERROR
              (AcquireFailed (lock_key self) (acquire_timeout self) current_value
                 ttl_remaining (len_clients clients))) >>
        ret false
  end.

Definition acquire_lock (fuel : nat) : Lk bool :=
  let* self := self_ in
  let* t := io time_time in
  let end_time := (t + acquire_timeout self)%Q in
  acquire_loop fuel end_time 0.

Definition release_lock : Lk unit :=
  let* self := self_ in
  if negb (_lock_acquired self) then
    io (logging WARNING (Text ("Attempted to release unacquired lock: " +:+ lock_key self)))
  else
    io (logging INFO (Text ("Releasing lock " +:+ lock_key self))) >>
    try_finally
      (try_except
         (let* result := io (redis_call (Eval UnlockScript (lock_key self) (lock_value self))) in
          if result is RInt 1 then
            io (logging INFO (Text ("Lock " +:+ lock_key self +:+ " released successfully")))
          else
            let* current_value := io (redis_call (Get (lock_key self))) in
            io (logging ERROR
                  (ReleaseMismatch (lock_key self) (lock_value self) current_value)))
         (fun e => io (logging ERROR (Text ("Release lock failed: " +:+ e)))))
      (set_lock_acquired false).

Definition __enter__ (fuel : nat) : Lk (option RedisDistributedLock) :=
  let* ok := acquire_lock fuel in
  if ok : bool then (let* self := self_ in ret (Some self)) else ret None.

Definition __exit__ : Lk unit := release_lock.

(** ** [graphrag/general/index.py] *)

Section index.

(** [networkx.Graph]: the pipelines only build it, hand it on and test it
    for emptiness ([not graph] is [len(graph) == 0], the number of nodes). *)
Variable Graph : Type.
Variable nx_Graph : Graph.
Variable add_node : string → string → Graph → Graph.
Variable add_edge : string → string → Q → Graph → Graph.
Variable number_of_nodes : Graph → nat.

Record entity : Type := mkEntity { entity_name : string; entity_type : string }.
Record relation : Type := mkRelation { src_id : string; tgt_id : string; weight : Q }.

Record community : Type := mkCommunity {
  title : string;
  findings : list string;   (* the ["explanation"] of each finding *)
  weight_ : Q;
  entities : list string
}.

(** What [EntityResolution(...)(graph)] hands back. *)
Record resolution : Type := mkResolution {
  reso_graph : Graph;
  removed_entities : list string
}.

(** What [CommunityReportsExtractor(...)(graph)] hands back. *)
Record reports : Type := mkReports {
  structured_output : list community;
  output : list string
}.

(** The collaborators, taken at their interface: each is a function that
    returns. *)
Variable extractor : list (string * string) → list entity * list relation.
Variable graph_merge : Graph → Graph → Graph.
Variable pagerank_nhop : Graph → nat → Graph.
Variable EntityResolution : Graph → resolution.
Variable CommunityReportsExtractor : Graph → reports.
Variable index_name : string → string.
Variable tokenize : string → string.
Variable fine_grained_tokenize : string → string.
Variable dumps_report : string → string → string.

Inductive cond_value : Type :=
| Kwd (s : string)
| Kwds (l : list string).

Record chunk : Type := mkChunk {
  docnm_kwd : string;
  title_tks : string;
  content_with_weight : string;
  content_ltks : string;
  knowledge_graph_kwd : string;
  weight_flt : Q;
  entities_kwd : list string;
  important_kwd : list string;
  chunk_kb_id : string;
  source_id : list string;
  available_int : Z;
  content_sm_ltks : string
}.

Variable chunk_id : chunk → string.

(** What a pipeline does to the world outside the lock server, in order. *)
Inductive event : Type :=
| Extracted (chunks : list (string * string))
| GotGraph (tenant_id kb_id : string)
| Merged
| Ranked (tenant_id kb_id : string)
| SetGraph (tenant_id kb_id : string) (graph : Graph) (docids : list string)
| Resolved
| Reported
| Callback (prog : option Z) (msg : string)
| DocDelete (condition : list (string * cond_value)) (index kb_id : string)
| DocInsert (id : string) (c : chunk) (index : string).

Record pstate : Type := mkPstate {
  redis : world;
  (** the graph and document ids persisted for each (tenant, knowledge base) *)
  graphs : gmap (string * string) (Graph * list string);
  (** newest first *)
  events : list event
}.

Definition P : Type → Type := St pstate.

Definition emit (e : event) : P unit :=
  fun ps => (Ret tt, mkPstate (redis ps) (graphs ps) (e :: events ps)).

(** A method of the lock object [mgr], run from a pipeline. *)
Definition on_lock {A} (m : Lk A) (mgr : RedisDistributedLock)
  : P (A * RedisDistributedLock) :=
  fun ps =>
    match m (mgr, redis ps) with
    | (Ret a, (mgr', w')) => (Ret (a, mgr'), mkPstate w' (graphs ps) (events ps))
    | (Raise e, (_, w')) => (Raise e, mkPstate w' (graphs ps) (events ps))
    | (OutOfFuel, (_, w')) => (OutOfFuel, mkPstate w' (graphs ps) (events ps))
    end.

Definition log (l : level) (t : log_text) : P unit :=
  fun ps => (Ret tt, mkPstate (with_log (l, t) (redis ps)) (graphs ps) (events ps)).

(** [with mgr: body].  What [__enter__] returns is bound to nothing and
    decides nothing: the body runs whenever [__enter__] returns.  [__exit__]
    runs on every way out of the body, and as it returns [None] an exception
    goes on after it. *)
Definition with_ {A} (fuel : nat) (mgr : RedisDistributedLock) (body : P A) : P A :=
  let* entered := on_lock (__enter__ fuel) mgr in
  let mgr := entered.2 in
  fun ps =>
    match body ps with
    | (Ret a, ps') => (on_lock __exit__ mgr >> ret a) ps'
    | (Raise e, ps') => (on_lock __exit__ mgr >> raise e) ps'
    | (OutOfFuel, ps') => (OutOfFuel, ps')
    end.

(** Modelled from the spec: [get_graph] and [set_graph] of [graphrag.utils],
    the GraphStore: load and save of one graph with its document ids, keyed by
    tenant and knowledge base; nothing is stored before the first save. *)
Definition get_graph (tenant_id kb_id : string) : P (option Graph * list string) :=
  emit (GotGraph tenant_id kb_id) >>
  fun ps =>
    match graphs ps !! (tenant_id, kb_id) with
    | Some (g, ids) => (Ret (Some g, ids), ps)
    | None => (Ret (None, []), ps)
    end.

Definition set_graph (tenant_id kb_id : string) (graph : Graph) (docids : list string)
  : P unit :=
  emit (SetGraph tenant_id kb_id graph docids) >>
  fun ps =>
    (Ret tt, mkPstate (redis ps) (<[(tenant_id, kb_id) := (graph, docids)]> (graphs ps))
               (events ps)).

(** [update_nodes_pagerank_nhop_neighbour(tenant_id, kb_id, graph, n)]
    annotates the graph it is given. *)
Definition update_nodes_pagerank_nhop_neighbour (tenant_id kb_id : string)
    (graph : Graph) (n : nat) : P Graph :=
  emit (Ranked tenant_id kb_id) >> ret (pagerank_nhop graph n).

(** [list(set(l))]: the elements of [l] once each, in the order the set
    yields them. *)
Definition list_set (l : list string) : list string :=
  elements (list_to_set l : gset string).

(** [callback(prog, msg=...)] when a callback was given. *)
Definition call_back (callback : bool) (prog : option Z) (msg : string) : P unit :=
  if callback then emit (Callback prog msg) else ret tt.

(** The lock every pipeline takes: [RedisDistributedLock(kb_id, 60*30)]. *)
Definition kb_lock (uuid4 kb_id : string) : RedisDistributedLock :=
  RedisDistributedLock__init__ uuid4 kb_id (60 * 30) default_timeout.

(** *** class Dealer *)

Definition Dealer__init__ (fuel : nat) (uuid4 tenant_id kb_id : string)
    (chunks : list (string * string)) : P Graph :=
  let docids := list_set (map fst chunks) in
  emit (Extracted chunks) >>
  let (ents, rels) := extractor chunks in
  let graph :=
    fold_left (fun g en => add_node (entity_name en) (entity_type en) g) ents nx_Graph in
  let graph :=
    fold_left (fun g rel => add_edge (src_id rel) (tgt_id rel) (weight rel) g) rels graph in
  with_ fuel (kb_lock uuid4 kb_id)
    (let* old := get_graph tenant_id kb_id in
     let (old_graph, old_doc_ids) := old : option Graph * list string in
     let* graph :=
       match old_graph with
       | Some old_graph => emit Merged >> ret (graph_merge old_graph graph)
       | None => ret graph
       end in
     let* graph := update_nodes_pagerank_nhop_neighbour tenant_id kb_id graph 2 in
     let docids :=
       match old_doc_ids with
       | [] => docids
       | _ => list_set (docids ++ old_doc_ids)
       end in
     set_graph tenant_id kb_id graph docids >>
     ret graph).

(** [not self.graph]. *)
Definition no_graph (g : option Graph) : bool :=
  match g with
  | None => true
  | Some g => (number_of_nodes g =? 0)%nat
  end.

Definition fetch_failed (kb_id : string) (callback : bool) : P unit :=
  log ERROR (Text ("Faild to fetch the graph. tenant_id:" +:+ kb_id +:+ ", kb_id:" +:+ kb_id)) >>
  call_back callback (Some (-1)%Z) "Faild to fetch the graph.".

(** *** class WithResolution *)

Definition WithResolution__init__ (fuel : nat) (uuid4 tenant_id kb_id : string)
    (callback : bool) : P unit :=
  let* locked :=
    with_ fuel (kb_lock uuid4 kb_id)
      (let* got := get_graph tenant_id kb_id in
       let (graph, doc_ids) := got : option Graph * list string in
       match graph with
       | Some g =>
           if no_graph graph then fetch_failed kb_id callback >> ret None
           else
             call_back callback None "Fetch the existing graph." >>
             emit Resolved >>
             let reso := EntityResolution g in
             let graph := reso_graph reso in
             let done :=
               "Graph resolution is done. Remove "
               +:+ pretty (length (removed_entities reso)) +:+ " nodes." in
             log INFO (Text done) >>
             call_back callback None done >>
             let* graph := update_nodes_pagerank_nhop_neighbour tenant_id kb_id graph 2 in
             set_graph tenant_id kb_id graph doc_ids >>
             ret (Some reso)
       | None => fetch_failed kb_id callback >> ret None
       end) in
  match locked with
  | None => ret tt       (* the [return] inside the [with] *)
  | Some reso =>
      emit (DocDelete [("knowledge_graph_kwd", Kwd "relation"); ("kb_id", Kwd kb_id);
                       ("from_entity_kwd", Kwds (removed_entities reso))]
              (index_name tenant_id) kb_id) >>
      emit (DocDelete [("knowledge_graph_kwd", Kwd "relation"); ("kb_id", Kwd kb_id);
                       ("to_entity_kwd", Kwds (removed_entities reso))]
              (index_name tenant_id) kb_id) >>
      emit (DocDelete [("knowledge_graph_kwd", Kwd "entity"); ("kb_id", Kwd kb_id);
                       ("entity_kwd", Kwds (removed_entities reso))]
              (index_name tenant_id) kb_id)
  end.

(** *** class WithCommunity *)

Definition newline : string := String (Ascii.ascii_of_nat 10) EmptyString.

Definition report_chunk (kb_id : string) (doc_ids : list string) (stru : community)
    (rep : string) : chunk :=
  let evidences := String.concat newline (findings stru) in
  let content_ltks := tokenize (rep +:+ " " +:+ evidences) in
  mkChunk (title stru) (tokenize (title stru)) (dumps_report rep evidences) content_ltks
    "community_report" (weight_ stru) (entities stru) (entities stru) kb_id doc_ids 0
    (fine_grained_tokenize content_ltks).

Fixpoint insert_reports (tenant_id kb_id : string) (doc_ids : list string)
    (pairs : list (community * string)) : P unit :=
  match pairs with
  | [] => ret tt
  | (stru, rep) :: rest =>
      let c := report_chunk kb_id doc_ids stru rep in
      emit (DocInsert (chunk_id c) c (index_name tenant_id)) >>
      insert_reports tenant_id kb_id doc_ids rest
  end.

Definition WithCommunity__init__ (fuel : nat) (uuid4 tenant_id kb_id : string)
    (callback : bool) : P unit :=
  let* locked :=
    with_ fuel (kb_lock uuid4 kb_id)
      (let* got := get_graph tenant_id kb_id in
       let (graph, doc_ids) := got : option Graph * list string in
       match graph with
       | Some g =>
           if no_graph graph then fetch_failed kb_id callback >> ret None
           else
             call_back callback None "Fetch the existing graph." >>
             emit Reported >>
             let cr := CommunityReportsExtractor g in
             set_graph tenant_id kb_id g doc_ids >>
             ret (Some (cr, doc_ids))
       | None => fetch_failed kb_id callback >> ret None
       end) in
  match locked with
  | None => ret tt       (* the [return] inside the [with] *)
  | Some (cr, doc_ids) =>
      call_back callback None
        ("Graph community extraction is done. Indexing "
         +:+ pretty (length (structured_output cr)) +:+ " reports.") >>
      emit (DocDelete [("knowledge_graph_kwd", Kwd "community_report"); ("kb_id", Kwd kb_id)]
              (index_name tenant_id) kb_id) >>
      insert_reports tenant_id kb_id doc_ids (zip (structured_output cr) (output cr))
  end.

End index.


Arguments mkPstate {Graph} _ _ _.
Arguments redis {Graph} _.
Arguments graphs {Graph} _.
Arguments events {Graph} _.
Arguments Extracted {Graph} _.
Arguments GotGraph {Graph} _ _.
Arguments Merged {Graph}.
Arguments Ranked {Graph} _ _.
Arguments SetGraph {Graph} _ _ _ _.
Arguments Resolved {Graph}.
Arguments Reported {Graph}.
Arguments Callback {Graph} _ _.
Arguments DocDelete {Graph} _ _ _.
Arguments DocInsert {Graph} _ _ _.
Arguments mkResolution {Graph} _ _.
Arguments reso_graph {Graph} _.
Arguments removed_entities {Graph} _.
Arguments emit {Graph} _ _.
Arguments on_lock {Graph A} _ _ _.
Arguments log {Graph} _ _ _.
Arguments with_ {Graph A} _ _ _ _.
Arguments get_graph {Graph} _ _ _.
Arguments set_graph {Graph} _ _ _ _ _.
Arguments call_back {Graph} _ _ _ _.
Arguments fetch_failed {Graph} _ _ _.
Arguments no_graph {Graph} _ _.
(** * Vocabulary of the properties *)

(** [m] maintains [I], however it ends. *)
Definition keeps {S A} (I : S → Prop) (m : St S A) : Prop :=
  ∀ s, I s → I (m s).2.

(** The lock object after a release. *)
Definition cleared (self : RedisDistributedLock) : RedisDistributedLock :=
  mkLock (lock_key self) (lock_value self) (ttl self) (acquire_timeout self) false.

(** What [release_lock] logs on a lock that is not held. *)
Definition unacquired (self : RedisDistributedLock) : log_text :=
  Text ("Attempted to release unacquired lock: " +:+ lock_key self).

(** The state after [n] more calls of [release_lock]. *)
Definition released_again (n : nat) (st : RedisDistributedLock * world)
  : RedisDistributedLock * world :=
  Nat.iter n (fun st => (release_lock st).2) st.

(** A world with a working connection and an empty keyspace, at time 0. *)
Definition quiet : world :=
  mkWorld (mkServer ∅ 0 1) [] [] [] (Some 0%nat) true 1 [].

(** The same world with key [k] held under token [v], expiring at time [e]. *)
Definition held (k v : string) (e : Q) : world :=
  with_srv (put k (RString v) (Some e) (srv quiet)) quiet.

(** A lock object for key [k] that believes it holds the lock, and one that
    has not tried yet. *)
Definition holder (token k : string) : RedisDistributedLock :=
  mkLock k token (60 * 30) 10 true.

Definition newcomer (token k : string) : RedisDistributedLock :=
  RedisDistributedLock__init__ token k (60 * 30) default_timeout.

(** The commands of [acquire_lock]: none of them removes a key. *)
Definition harmless (c : command) : bool :=
  match c with
  | SetEx _ _ _ _ | Get _ | Ttl _ | ClientList => true
  | _ => false
  end.

(** What is left of a failed call in a key-value operation of [RedisDB]:
    one warning that names the operation, the key and the exception, and one
    run of [__open__] (which logs its own warning when it cannot build a
    client); the server has seen nothing. *)
Definition failed_once (op key msg : string) (w w' : world) : Prop :=
  opens w' = S (opens w)
  ∧ srv w' = srv w
  ∧ logs w' = ((if config_ok w then [] else [(WARNING, Text "Redis can't be connected.")])
               ++ (WARNING, got_exception op key msg) :: logs w)%list.

(** How many times the loop of [acquire_lock] can test its condition: every
    failed attempt is followed by a sleep of a tenth of a second at least. *)
Definition attempts_bound (timeout : Q) : nat :=
  S (Z.to_nat (Qceiling (10 * timeout))).


Definition last_round (self : RedisDistributedLock) (acquired : bool) : list command :=
  if acquired then [SetEx (lock_key self) (lock_value self) (ttl self) true]
  else [Get (lock_key self); Ttl (lock_key self); ClientList].

(** The connection works and the lock key, if it is there at all, holds a
    string. *)
Definition lock_ready (self : RedisDistributedLock) (w : world) : Prop :=
  is_Some (REDIS w) ∧ faults w = []
  ∧ ∀ sl, keyspace (srv w) !! lock_key self = Some sl → ∃ v, sl_value sl = RString v.



(** ** An instance of the collaborators of the pipelines

    Graphs are the lists of their node names; the extractor finds one entity
    in every chunk, its text; resolution and community detection find
    nothing to do. *)
Module demo.

Definition Graph : Type := list string.

Definition add_node (n ty : string) (g : Graph) : Graph :=
  if bool_decide (n ∈ g) then g else (g ++ [n])%list.

Definition add_edge (a b : string) (wt : Q) (g : Graph) : Graph :=
  add_node b "" (add_node a "" g).

Definition extractor (chunks : list (string * string)) : list entity * list relation :=
  (map (fun c => mkEntity c.2 "concept") chunks, []).

Definition graph_merge (g1 g2 : Graph) : Graph :=
  fold_left (fun g n => add_node n "" g) g2 g1.

Definition index_name (tenant_id : string) : string := "ragflow_" +:+ tenant_id.

Definition Dealer : nat → string → string → string → list (string * string)
    → P Graph Graph :=
  Dealer__init__ Graph [] add_node add_edge extractor graph_merge (fun g _ => g).

Definition WithResolution : nat → string → string → string → bool → P Graph unit :=
  WithResolution__init__ Graph (@length string) (fun g _ => g)
    (fun g => mkResolution g []) index_name.

Definition WithCommunity : nat → string → string → string → bool → P Graph unit :=
  WithCommunity__init__ Graph (@length string) (fun g => mkReports [] []) index_name
    id id (fun rep ev => rep) docnm_kwd.

End demo.

(** The document ids on record for a knowledge base. *)
Definition stored_docids {Graph} (tenant_id kb_id : string) (ps : pstate Graph)
  : list string :=
  match graphs ps !! (tenant_id, kb_id) with
  | Some (_, ids) => ids
  | None => []
  end.

(** The graph on record for a knowledge base. *)
Definition stored_graph {Graph} (tenant_id kb_id : string) (ps : pstate Graph)
  : option Graph :=
  fst <$> graphs ps !! (tenant_id, kb_id).

(** What a resolution or community pipeline that finds no graph leaves in
    the events: the load, and the failure handed to the callback if there is
    one. *)
Definition fetch_failure {Graph} (callback : bool) (tenant_id kb_id : string)
    (before : list (event Graph)) : list (event Graph) :=
  ((if callback then [Callback (Some (-1)%Z) "Faild to fetch the graph."] else [])
   ++ GotGraph tenant_id kb_id :: before)%list.

(** How a pipeline [run] from [ps] that finds no graph may end: nothing is
    persisted, and either the lock code never came back and nothing
    happened, or the pipeline returns after the load and the report of the
    failure. *)
Definition aborted {Graph} (fuel : nat) (uuid4 tenant_id kb_id : string) (callback : bool)
    (ps : pstate Graph) (run : outcome unit * pstate Graph) : Prop :=
  graphs run.2 = graphs ps
  ∧ ((run.1 ≠ Ret tt ∧ events run.2 = events ps)
     ∨ (run.1 = Ret tt
        ∧ events run.2 = fetch_failure callback tenant_id kb_id (events ps)))
  ∧ ∀ entered ps1,
      on_lock (__enter__ fuel) (kb_lock uuid4 kb_id) ps = (Ret entered, ps1) →
      run.1 = Ret tt ∧ events run.2 = fetch_failure callback tenant_id kb_id (events ps).

(** ** Streams *)

(** The upper end of the scan of [get_unacked_for], a millisecond count. *)
Definition scan_bound : N := 10000000000000.

(** The entries of [st] that group [x] has not been handed yet. *)
Definition unread (x : group) (st : stream) : list entry :=
  List.filter (fun e => id_ltb (g_last_delivered x) (e_id e)) (s_entries st).

(** The group [g] of [st]; when there is none, the group that
    [xgroup_create(..., id="0", mkstream=True)] makes. *)
Definition group_at_origin (g : string) (st : stream) : group :=
  default (mkGroup g (0%N, 0%N) []) (find_group g st).

(** The field dictionary of entry [e] carries the JSON text of [m]. *)
Definition decodes {pyobj} (json_loads : string → result pyobj) (e : entry) (m : pyobj)
  : Prop :=
  ∃ text, getitem "message" (e_fields e) = Val text ∧ json_loads text = Val m.

(** The stream value stored under [q], expired or not. *)
Definition stream_at (q : string) (s : server) : option stream :=
  match keyspace s !! q with
  | Some sl => if sl_value sl is RStream st then Some st else None
  | None => None
  end.

(** Queue [q] has nothing left for group [g] to read and nothing pending for
    consumer [c]; its ids, and the clock, are within the scan of
    [get_unacked_for]. *)
Definition drained (q g c : string) (s : server) : Prop :=
  (ms_now s ≤ scan_bound)%N
  ∧ match peek s q with
    | None => True
    | Some (RStream st) =>
        ((s_last_id st).1 ≤ scan_bound)%N
        ∧ Forall (fun e => id_leb (e_id e) (s_last_id st) = true) (s_entries st)
        ∧ match find_group g st with
          | None => s_entries st = []
          | Some x =>
              id_leb (g_last_delivered x) (s_last_id st) = true
              ∧ unread x st = []
              ∧ Forall (fun p => p_consumer p ≠ c) (g_pel x)
          end
    | Some _ => False
    end.

(** The stream that an append to [q] extends: an absent key counts as the
    empty stream, a key of another type as none. *)
Definition queue_of (q : string) (s : server) : option stream :=
  match peek s q with
  | None => Some empty_stream
  | Some (RStream st) => Some st
  | Some _ => None
  end.

(** [st] with one more entry, under the id the server generates. *)
Definition appended (s : server) (fields : list (string * string)) (st : stream)
  : stream :=
  let i := next_id (ms_now s) (s_last_id st) in
  mkStream (s_entries st ++ [mkEntry i fields]) i (s_groups st).

(** The lines of the pending list of [x] that the scan of [get_unacked_for]
    for consumer [c] sees, oldest first. *)
Definition pending_of (c : string) (x : group) : list pending :=
  List.filter
    (fun p => String.eqb (p_consumer p) c && (0 <=? (p_id p).1)%N
              && ((p_id p).1 <=? scan_bound)%N)
    (g_pel x).

(** The entries of [st] from id [i] on. *)
Definition from_id (i : stream_id) (st : stream) : list entry :=
  List.filter (fun e => id_leb i (e_id e)) (s_entries st).

(** The members of the set under [k]; a key that is absent is the empty
    set. *)
Definition members (k : string) (s : server) : gset string :=
  match peek s k with
  | Some (RSet ms) => ms
  | _ => ∅
  end.

(** A queue with two entries, both handed to consumer ["c"] of group ["g"]
    and neither acknowledged. *)
Definition backlog_stream : stream :=
  mkStream [mkEntry (0%N, 1%N) [("message", "first")];
            mkEntry (0%N, 2%N) [("message", "second")]]
    (0%N, 2%N)
    [mkGroup "g" (0%N, 2%N) [mkPending (0%N, 1%N) "c"; mkPending (0%N, 2%N) "c"]].

Definition backlog : world :=
  with_srv (put "q" (RStream backlog_stream) None (srv quiet)) quiet.

(** ** The pipelines *)





(** The scored members of the sorted set under [k]; a key that is absent is
    the empty sorted set. *)
Definition scored (k : string) (s : server) : list (string * Q) :=
  match peek s k with
  | Some (RZSet l) => l
  | _ => []
  end.
(** * Properties *)

(** ** Reasoning about computations *)

Section keeps.
Context {S : Type} (I : S → Prop).

Lemma keeps_ret {A} (a : A) : keeps I (ret a).
Proof. intros s Hs. exact Hs. Qed.

Lemma keeps_raise {A} e : keeps I (raise (A:=A) e).
Proof. intros s Hs. exact Hs. Qed.

Lemma keeps_bind {A B} (m : St S A) (f : A → St S B) :
  keeps I m → (∀ a, keeps I (f a)) → keeps I (bind m f).
Proof.
  intros Hm Hf s Hs. unfold bind. specialize (Hm s Hs).
  destruct (m s) as [[a|e|] s']; simpl in *; auto. by apply Hf.
Qed.

Lemma keeps_try_except {A} (m : St S A) h :
  keeps I m → (∀ e, keeps I (h e)) → keeps I (try_except m h).
Proof.
  intros Hm Hh s Hs. unfold try_except. specialize (Hm s Hs).
  destruct (m s) as [[a|e|] s']; simpl in *; auto. by apply Hh.
Qed.

Lemma keeps_try_finally {A} (m : St S A) c :
  keeps I m → (∀ s, I s → I (c s)) → keeps I (try_finally m c).
Proof.
  intros Hm Hc s Hs. unfold try_finally. specialize (Hm s Hs).
  destruct (m s) as [r s']; simpl in *; auto.
Qed.
End keeps.

Lemma keeps_io (I : RedisDistributedLock * world → Prop) {A} (m : M A) :
  (∀ self, keeps (fun w => I (self, w)) m) → keeps I (io m).
Proof.
  intros Hm [self w] Hs. unfold io. simpl. specialize (Hm self w Hs).
  destruct (m w) as [r w']; exact Hm.
Qed.

Lemma keeps_logging (I : world → Prop) l t :
  (∀ w, I w → I (with_log (l, t) w)) → keeps I (logging l t).
Proof. intros H w Hw. by apply H. Qed.

Lemma keeps_if_one {S} (I : S → Prop) {A} (r : reply) (a b : St S A) :
  keeps I a → keeps I b → keeps I (if r is RInt 1 then a else b).
Proof. intros Ha Hb. destruct r as [| |[|[]|]| | | | | | | | | |]; assumption. Qed.


(** ** The server and the connection *)

(** What a call can do to the server: nothing, or what [exec] says. *)
Lemma client_call_srv c w :
  srv (client_call c w).2 = srv w ∨ srv (client_call c w).2 = (exec c (srv w)).2.
Proof.
  unfold client_call. destruct (faults w) as [|[msg|] rest]; simpl; auto.
  all: destruct (exec c (srv w)) as [r s']; simpl; auto.
Qed.

Lemma redis_call_srv c w :
  srv (redis_call c w).2 = srv w ∨ srv (redis_call c w).2 = (exec c (srv w)).2.
Proof. unfold redis_call. destruct (REDIS w); [apply client_call_srv | by left]. Qed.

Lemma client_call_ok c w :
  faults w = [] →
  client_call c w =
    (match (exec c (srv w)).1 with Val v => Ret v | Exc e => Raise e end,
     with_srv (exec c (srv w)).2 (with_sent c w)).
Proof. intros Hf. unfold client_call. rewrite Hf. by destruct (exec c (srv w)). Qed.

Lemma redis_call_ok c w n :
  REDIS w = Some n → faults w = [] →
  redis_call c w =
    (match (exec c (srv w)).1 with Val v => Ret v | Exc e => Raise e end,
     with_srv (exec c (srv w)).2 (with_sent c w)).
Proof. intros Hr Hf. unfold redis_call. rewrite Hr. by apply client_call_ok. Qed.

Lemma srv_get_same k s : (srv_get k s).2 = s.
Proof. unfold srv_get. repeat case_match; reflexivity. Qed.

Lemma srv_eval_mismatch k v s :
  peek s k ≠ Some (RString v) → (srv_eval UnlockScript k v s).2 = s.
Proof.
  intros H. unfold srv_eval, srv_get.
  destruct (peek s k) as [[v'| | |]|] eqn:E; simpl; try reflexivity.
  destruct (String.eqb v' v) eqn:Ev; [|reflexivity].
  apply String.eqb_eq in Ev. subst. congruence.
Qed.

Lemma peek_forget k s : peek (forget k s) k = None.
Proof. unfold peek, forget. simpl. by rewrite lookup_delete_eq. Qed.

Lemma srv_eval_match k v s :
  peek s k = Some (RString v) → srv_eval UnlockScript k v s = (Val (RInt 1), forget k s).
Proof.
  intros H. unfold srv_eval, srv_get. rewrite H. rewrite String.eqb_refl.
  unfold srv_del. rewrite H. reflexivity.
Qed.

Lemma live_fresh (t : Q) (ex : Z) :
  (ex <=? 0)%Z = false → live t (mkSlot (RString "") (Some (t + inject_Z ex)%Q)) = true.
Proof.
  intros H. apply Z.leb_gt in H. unfold live. simpl.
  destruct (Qlt_le_dec t (t + inject_Z ex)) as [|Hle]; [done|].
  exfalso. assert (inject_Z 0 < inject_Z ex)%Q as Hpos by (by rewrite <- Zlt_Qlt).
  change (inject_Z 0) with 0%Q in Hpos. lra.
Qed.

Lemma srv_set_truthy k v ex nx s r s' :
  srv_set k v ex nx s = (Val r, s') → truthy r = true →
  peek s' k = Some (RString v) ∧ (0 < ex)%Z.
Proof.
  unfold srv_set. destruct (ex <=? 0)%Z eqn:Hex; [done|].
  destruct (nx && _); intros [= <- <-]; [done|]. intros _.
  split; [|by apply Z.leb_gt].
  unfold peek, put. simpl. rewrite lookup_insert_eq.
  pose proof (live_fresh (now s) ex Hex) as Hl. unfold live in *. simpl in *.
  by rewrite Hl.
Qed.

(** A call can answer only what the server answers. *)
Lemma redis_call_ret c w v w' :
  redis_call c w = (Ret v, w') →
  exec c (srv w) = (Val v, srv w') ∧ REDIS w' = REDIS w ∧ is_Some (REDIS w).
Proof.
  unfold redis_call, client_call. destruct (REDIS w) eqn:HR; [|done].
  destruct (faults w) as [|[msg|] rest]; simpl; [| done |].
  all: destruct (exec c (srv w)) as [[v0|e] s0]; intros [= <- <-]; simpl; eauto.
Qed.

Lemma srv_eval_cases k v s :
  (peek s k = Some (RString v) ∧ srv_eval UnlockScript k v s = (Val (RInt 1), forget k s))
  ∨ srv_eval UnlockScript k v s = (Val (RInt 0), s)
  ∨ ∃ e, srv_eval UnlockScript k v s = (Exc e, s).
Proof.
  unfold srv_eval, srv_get, srv_del.
  destruct (peek s k) as [[v'| | |]|] eqn:E; simpl; eauto.
  destruct (String.eqb v' v) eqn:Ev; [|by eauto].
  apply String.eqb_eq in Ev. subst. rewrite E. by left.
Qed.

(** A command that is refused changes nothing. *)
Lemma exec_exc c s e s' : exec c s = (Exc e, s') → s' = s.
Proof.
  destruct c; cbn [exec];
    unfold srv_exists, srv_get, srv_set, srv_ttl, srv_del, srv_eval, srv_get, srv_del,
      srv_sadd, srv_srem, srv_smembers, srv_zadd, srv_zcount, srv_zpopmin,
      srv_zrangebyscore, srv_xadd, srv_xinfo_groups, srv_xgroup_create, srv_xreadgroup,
      srv_xack, srv_xpending_range, srv_xrange;
    intros H; repeat (case_match; simplify_eq); congruence.
Qed.

(** What one call does to the world, whatever the transport does. *)
Lemma redis_call_cases c w :
  (REDIS w = None ∧ ∃ e, redis_call c w = (Raise e, w))
  ∨ (∃ e w', redis_call c w = (Raise e, w') ∧ srv w' = srv w ∧ sent w' = c :: sent w
       ∧ REDIS w' = REDIS w ∧ opens w' = opens w ∧ logs w' = logs w ∧ naps w' = naps w)
  ∨ (∃ v w', redis_call c w = (Ret v, w') ∧ exec c (srv w) = (Val v, srv w')
       ∧ sent w' = c :: sent w
       ∧ REDIS w' = REDIS w ∧ opens w' = opens w ∧ logs w' = logs w ∧ naps w' = naps w).
Proof.
  unfold redis_call, client_call. destruct (REDIS w) eqn:HR; [|left; eauto].
  right. destruct (faults w) as [|[msg|] rest]; simpl.
  2: { left. do 2 eexists. by repeat split. }
  all: destruct (exec c (srv w)) as [[v|e] s'] eqn:He; simpl;
    [right|left; apply exec_exc in He as ->]; do 2 eexists; by repeat split.
Qed.


(** ** The distributed lock *)

Lemma release_lock_shape self w :
  _lock_acquired self = true →
  ∃ w', release_lock (self, w) = (Ret tt, (cleared self, w'))
    ∧ REDIS w' = REDIS w ∧ opens w' = opens w ∧ naps w' = naps w
    ∧ ( (sent w' = sent w ∧ srv w' = srv w)
      ∨ (sent w' = Eval UnlockScript (lock_key self) (lock_value self) :: sent w
         ∧ (srv w' = srv w
            ∨ (peek (srv w) (lock_key self) = Some (RString (lock_value self))
               ∧ srv w' = forget (lock_key self) (srv w))))
      ∨ (sent w' = Get (lock_key self)
                     :: Eval UnlockScript (lock_key self) (lock_value self) :: sent w
         ∧ srv w' = srv w)).
Proof.
  intros Hacq. unfold release_lock. cbn [bind self_ fst snd]. rewrite Hacq. cbn [negb].
  unfold bind at 1. unfold io at 1, logging at 1. cbn [fst snd].
  set (w0 := with_log _ w).
  unfold try_finally, try_except. unfold bind at 1. unfold io at 1. cbn [fst snd].
  destruct (redis_call_cases (Eval UnlockScript (lock_key self) (lock_value self)) w0)
    as [(HR & e & ->)|[(e & w1 & -> & Hs & Hse & HR & Ho & Hl & Hn)
                      |(v & w1 & -> & Hex & Hse & HR & Ho & Hl & Hn)]].
  - cbn. eexists. split; [reflexivity|]. cbn. subst w0; cbn in *; repeat split; auto 10.
  - cbn. eexists. split; [reflexivity|]. cbn. rewrite HR, Ho, Hn, Hse, Hs.
    subst w0; cbn in *; repeat split; auto 10.
  - cbn [exec] in Hex.
    destruct (srv_eval_cases (lock_key self) (lock_value self) (srv w0))
      as [[Hp He]|[He|[e He]]]; rewrite He in Hex; simplify_eq.
    + cbn. eexists. split; [reflexivity|]. cbn. rewrite HR, Ho, Hn, Hse.
      match goal with H : forget _ _ = _ |- _ => rewrite <- H end.
      subst w0; cbn in *; repeat split; auto 10.
    + cbn [fst snd]. unfold bind at 1. unfold io at 1. cbn [fst snd].
      match goal with H : srv w0 = srv w1 |- _ => rename H into Hs end.
      destruct (redis_call_cases (Get (lock_key self)) w1)
        as [(HR' & e & ->)|[(e & w2 & -> & Hs2 & Hse2 & HR2 & Ho2 & Hl2 & Hn2)
                           |(v & w2 & -> & Hex2 & Hse2 & HR2 & Ho2 & Hl2 & Hn2)]].
      * cbn. eexists. split; [reflexivity|]. cbn. rewrite HR, Ho, Hn, Hse, <- Hs.
        subst w0; cbn in *; repeat split; auto 10.
      * cbn. eexists. split; [reflexivity|]. cbn.
        rewrite HR2, Ho2, Hn2, Hse2, Hs2, HR, Ho, Hn, Hse, <- Hs. subst w0; cbn in *; repeat split; auto 10.
      * cbn. eexists. split; [reflexivity|]. cbn.
        cbn [exec] in Hex2. pose proof (srv_get_same (lock_key self) (srv w1)) as Hg.
        rewrite Hex2 in Hg. cbn in Hg.
        rewrite HR2, Ho2, Hn2, Hse2, Hg, HR, Ho, Hn, Hse, <- Hs. subst w0; cbn in *; repeat split; auto 10.
Qed.

Lemma acquire_loop_true fuel end_time attempt self w st :
  acquire_loop fuel end_time attempt (self, w) = (Ret true, st) →
  st.1 = mkLock (lock_key self) (lock_value self) (ttl self) (acquire_timeout self) true
  ∧ peek (srv st.2) (lock_key self) = Some (RString (lock_value self))
  ∧ is_Some (REDIS st.2) ∧ (0 < ttl self)%Z.
Proof.
  revert attempt w. induction fuel as [|fuel IH]; intros attempt w; [done|].
  cbn [acquire_loop]. unfold bind at 1. cbn [self_ fst snd].
  unfold bind at 1. unfold io at 1, time_time at 1. cbn [fst snd].
  destruct (Qlt_le_dec (now (srv w)) end_time) as [Hlt|Hge].
  - unfold bind at 1. unfold io at 1. cbn [fst snd].
    destruct (redis_call _ w) as [[acquired|e|] w1] eqn:Hset; [|done|done].
    apply redis_call_ret in Hset as (Hexec & HR & HR0).
    destruct (truthy acquired) eqn:Htr.
    + cbn. intros [= <-]. cbn. cbn in Hexec.
      destruct (srv_set_truthy _ _ _ _ _ _ _ Hexec Htr) as [Hp Httl].
      rewrite HR. done.
    + unfold bind at 1. unfold io at 1. cbn [fst snd].
      destruct (redis_call _ w1) as [[cur|e|] w2] eqn:Hget; [|done|done].
      unfold bind at 1. unfold io at 1. cbn [fst snd].
      destruct (redis_call _ w2) as [[tt_|e|] w3] eqn:Httl; [|done|done].
      cbn -[acquire_loop]. apply IH.
  - unfold bind at 1. unfold io at 1. cbn [fst snd].
    destruct (redis_call _ w) as [[cur|e|] w1] eqn:Hget; [|done|done].
    unfold bind at 1. unfold io at 1. cbn [fst snd].
    destruct (redis_call _ w1) as [[tt_|e|] w2] eqn:Httl; [|done|done].
    unfold bind at 1. unfold io at 1. cbn [fst snd].
    destruct (redis_call _ w2) as [[cl|e|] w3] eqn:Hcl; [|done|done].
    cbn. done.
Qed.

Lemma release_lock_unacquired self w :
  _lock_acquired self = false →
  release_lock (self, w) = (Ret tt, (self, with_log (WARNING, unacquired self) w)).
Proof. intros H. unfold release_lock. cbn [bind self_ fst snd]. by rewrite H. Qed.

Lemma release_lock_returns st :
  (release_lock st).1 = Ret tt ∧ _lock_acquired (release_lock st).2.1 = false.
Proof.
  destruct st as [self w]. destruct (_lock_acquired self) eqn:Hacq.
  - destruct (release_lock_shape self w Hacq) as (w' & -> & _). done.
  - by rewrite release_lock_unacquired.
Qed.

Lemma released_again_quiet n st :
  _lock_acquired st.1 = false →
  _lock_acquired (released_again n st).1 = false
  ∧ sent (released_again n st).2 = sent st.2
  ∧ srv (released_again n st).2 = srv st.2.
Proof.
  intros H. induction n as [|n (IH1 & IH2 & IH3)]; [done|].
  unfold released_again in *. rewrite Nat.iter_succ.
  destruct (Nat.iter n _ st) as [selfn wn]. cbn [fst snd] in *.
  rewrite release_lock_unacquired by done. done.
Qed.

Lemma acquire_lock_true fuel self w st :
  acquire_lock fuel (self, w) = (Ret true, st) →
  st.1 = mkLock (lock_key self) (lock_value self) (ttl self) (acquire_timeout self) true
  ∧ peek (srv st.2) (lock_key self) = Some (RString (lock_value self))
  ∧ is_Some (REDIS st.2) ∧ (0 < ttl self)%Z.
Proof. unfold acquire_lock. cbn [bind self_ io time_time fst snd]. apply acquire_loop_true. Qed.


(** C3.  Whatever the lock key holds: when the stored value is not the
    caller's token (another token, another kind of value, or nothing),
    [release_lock] leaves the server as it was, so the record is unchanged
    and a following GET answers as before; when the stored value is the
    caller's token, a lock object that holds the lock, on a working
    connection, deletes the record. *)
Theorem release_lock_integrity (self : RedisDistributedLock) (w : world) :
  let after := (release_lock (self, w)).2.2 in
  (peek (srv w) (lock_key self) ≠ Some (RString (lock_value self)) →
   srv after = srv w) ∧
  (_lock_acquired self = true → is_Some (REDIS w) → faults w = [] →
   peek (srv w) (lock_key self) = Some (RString (lock_value self)) →
   peek (srv after) (lock_key self) = None).
Proof.
  split.
  - intros Hne.
    set (I := fun st : RedisDistributedLock * world => srv st.2 = srv w).
    change (I (release_lock (self, w)).2).
    unfold release_lock. cbn [bind self_ fst snd].
    destruct (_lock_acquired self); cbn [negb]; [|reflexivity].
    assert (Hcall : ∀ c, (exec c (srv w)).2 = srv w → keeps I (io (redis_call c))).
    { intros c Hc. apply keeps_io. intros self' w' Hw'. unfold I in *. simpl in *.
      destruct (redis_call_srv c w') as [->| ->]; [done|]. by rewrite Hw'. }
    assert (Hlog : ∀ l t, keeps I (io (logging l t))).
    { intros l t. apply keeps_io. intros self'. by apply keeps_logging. }
    revert I Hcall Hlog. intros I Hcall Hlog.
    apply keeps_bind; [apply Hlog|intros _|reflexivity].
    apply keeps_try_finally; [|by intros []].
    apply keeps_try_except; [|intros e; apply Hlog].
    apply keeps_bind; [apply Hcall; by apply srv_eval_mismatch|intros r].
    apply keeps_if_one; [apply Hlog|].
    apply keeps_bind; [apply Hcall; apply srv_get_same|intros; apply Hlog].
  - intros Hacq [c Hc] Hf Hp.
    unfold release_lock. cbn [bind self_ fst snd]. rewrite Hacq. cbn [negb].
    unfold try_finally, try_except, bind, io, logging. cbn [fst snd].
    rewrite (redis_call_ok _ _ c) by done. cbn [exec with_log srv].
    rewrite srv_eval_match by done. cbn. apply peek_forget.
Qed.

Lemma release_lock_integrity_witness :
  srv (release_lock (holder "me" "kb", held "kb" "other" 1800)).2.2
    = srv (held "kb" "other" 1800)
  ∧ peek (srv (release_lock (holder "me" "kb", held "kb" "me" 1800)).2.2) "kb" = None.
Proof.
  split.
  - apply (proj1 (release_lock_integrity (holder "me" "kb") (held "kb" "other" 1800))).
    vm_compute. discriminate.
  - apply (proj2 (release_lock_integrity (holder "me" "kb") (held "kb" "me" 1800)));
      [reflexivity | eexists; reflexivity | reflexivity | vm_compute; reflexivity].
Defined.

(** C4.  [release_lock] on a lock that was never acquired is a no-op that
    logs one warning and reaches the store with nothing.  After an
    [acquire_lock] that succeeded, the first release sends one command, the
    compare-and-delete, and the record is gone.  After any release, every
    further release returns without an exception, sends nothing and leaves
    the server as it is. *)
Theorem release_lock_idempotent (self : RedisDistributedLock) (w : world) :
  (_lock_acquired self = false →
   release_lock (self, w) = (Ret tt, (self, with_log (WARNING, unacquired self) w)))
  ∧ (∀ fuel st1, acquire_lock fuel (self, w) = (Ret true, st1) → faults st1.2 = [] →
     (release_lock st1).1 = Ret tt
     ∧ sent (release_lock st1).2.2
         = Eval UnlockScript (lock_key self) (lock_value self) :: sent st1.2
     ∧ peek (srv st1.2) (lock_key self) = Some (RString (lock_value self))
     ∧ peek (srv (release_lock st1).2.2) (lock_key self) = None)
  ∧ (∀ n, let st := released_again n (release_lock (self, w)).2 in
     (release_lock st).1 = Ret tt
     ∧ sent (release_lock st).2.2 = sent (release_lock (self, w)).2.2
     ∧ srv (release_lock st).2.2 = srv (release_lock (self, w)).2.2).
Proof.
  split; [apply release_lock_unacquired|]. split.
  - intros fuel [self1 w1] Hacq Hf.
    apply acquire_lock_true in Hacq as (Hself & Hp & [c Hc] & Httl). cbn in *. subst self1.
    cbn [lock_key lock_value] in *.
    unfold release_lock. cbn [bind self_ fst snd _lock_acquired negb lock_key lock_value].
    unfold try_finally, try_except, bind, io, logging. cbn [fst snd].
    rewrite (redis_call_ok _ _ c) by done. cbn [exec with_log srv].
    rewrite srv_eval_match by done. cbn. split; [done|]. split; [done|].
    split; [done|]. apply peek_forget.
  - intros n st.
    destruct (release_lock_returns (self, w)) as [_ Hflag].
    destruct (released_again_quiet n _ Hflag) as (Hn & Hs & Hv). fold st in Hn, Hs, Hv.
    destruct st as [selfn wn]. rewrite release_lock_unacquired by done. done.
Qed.

Lemma release_lock_idempotent_witness :
  release_lock (newcomer "me" "kb", quiet)
    = (Ret tt, (newcomer "me" "kb",
                with_log (WARNING, unacquired (newcomer "me" "kb")) quiet))
  ∧ sent (release_lock (acquire_lock 1 (newcomer "me" "kb", quiet)).2).2.2
      = [Eval UnlockScript "kb" "me"; SetEx "kb" "me" 1800 true]
  ∧ peek (srv (release_lock (acquire_lock 1 (newcomer "me" "kb", quiet)).2).2.2) "kb"
      = None.
Proof.
  destruct (release_lock_idempotent (newcomer "me" "kb") quiet) as (H1 & H2 & _).
  split; [apply H1; reflexivity|].
  destruct (H2 1%nat (acquire_lock 1 (newcomer "me" "kb", quiet)).2) as (_ & Hs & _ & Hp);
    [vm_compute; reflexivity | reflexivity |].
  split; [exact Hs | exact Hp].
Defined.

(** ** The pipelines of [graphrag/general/index.py] *)

Section pipelines.

Context {Graph : Type}.

Lemma on_lock_frame {A} (m : Lk A) (mgr : RedisDistributedLock) (ps : pstate Graph) :
  graphs (on_lock m mgr ps).2 = graphs ps ∧ events (on_lock m mgr ps).2 = events ps.
Proof.
  unfold on_lock. destruct (m (mgr, redis ps)) as [[a|e|] [mgr' w']]; done.
Qed.

Lemma on_lock_exit_returns (mgr : RedisDistributedLock) (ps : pstate Graph) :
  (on_lock __exit__ mgr ps).1 = Ret (tt, (release_lock (mgr, redis ps)).2.1).
Proof.
  unfold on_lock, __exit__.
  pose proof (release_lock_returns (mgr, redis ps)) as [Hr _].
  destruct (release_lock (mgr, redis ps)) as [[[]|e|] [mgr' w']]; done.
Qed.

(** Whatever [__enter__] returns, [None] included, the body of the [with]
    statement runs next, on the state [__enter__] left. *)
Lemma with__runs_body {A} fuel mgr (body : P Graph A) ps entered ps1 :
  on_lock (__enter__ fuel) mgr ps = (Ret entered, ps1) →
  with_ fuel mgr body ps
  = match body ps1 with
    | (Ret a, ps') => (on_lock __exit__ entered.2 >> ret a) ps'
    | (Raise e, ps') => (on_lock __exit__ entered.2 >> raise e) ps'
    | (OutOfFuel, ps') => (OutOfFuel, ps')
    end.
Proof.
  intros He. unfold with_. unfold bind at 1. by rewrite He.
Qed.

(** A [with] statement whose body returns: how it ends, and what it leaves
    of the graphs and the events. *)
Lemma with__returns {A} fuel mgr (body : P Graph A) ps :
  (∀ ps1, graphs ps1 = graphs ps → events ps1 = events ps → ∃ a, (body ps1).1 = Ret a) →
  (∃ entered ps1 a,
      on_lock (__enter__ fuel) mgr ps = (Ret entered, ps1)
      ∧ graphs ps1 = graphs ps ∧ events ps1 = events ps
      ∧ (body ps1).1 = Ret a
      ∧ (with_ fuel mgr body ps).1 = Ret a
      ∧ graphs (with_ fuel mgr body ps).2 = graphs (body ps1).2
      ∧ events (with_ fuel mgr body ps).2 = events (body ps1).2)
  ∨ ((∀ a, (with_ fuel mgr body ps).1 ≠ Ret a)
     ∧ (∀ entered ps1, on_lock (__enter__ fuel) mgr ps ≠ (Ret entered, ps1))
     ∧ graphs (with_ fuel mgr body ps).2 = graphs ps
     ∧ events (with_ fuel mgr body ps).2 = events ps).
Proof.
  intros Hbody.
  pose proof (on_lock_frame (__enter__ fuel) mgr ps) as [Hg He].
  destruct (on_lock (__enter__ fuel) mgr ps) as [[entered|e|] ps1] eqn:Henter.
  - left. exists entered, ps1.
    destruct (Hbody ps1 Hg He) as [a Ha]. exists a.
    rewrite (with__runs_body _ _ _ _ _ _ Henter).
    destruct (body ps1) as [o ps2] eqn:Hb. cbn in Ha. subst o.
    pose proof (on_lock_exit_returns entered.2 ps2) as Hx.
    pose proof (on_lock_frame __exit__ entered.2 ps2) as [Hg2 He2].
    unfold bind. destruct (on_lock __exit__ entered.2 ps2) as [o ps3].
    cbn in Hx. subst o. cbn in *. done.
  - right.
    assert (with_ fuel mgr body ps = (Raise e, ps1)) as ->
      by (unfold with_; unfold bind at 1; by rewrite Henter).
    by repeat split.
  - right.
    assert (with_ fuel mgr body ps = (OutOfFuel, ps1)) as ->
      by (unfold with_; unfold bind at 1; by rewrite Henter).
    by repeat split.
Qed.

End pipelines.

(** C1.  A pipeline whose lock acquisition times out does not abort: the
    [with] statement runs its body all the same.  With the lock of knowledge
    base [kb] held by another client for the next half hour, [Dealer]
    waits out its ten seconds, [acquire_lock] returns [False], and the
    pipeline still loads, ranks and persists the graph; the lock record is
    the other client's throughout.  The same holds for [WithResolution] on a
    stored graph. *)
Theorem pipeline_runs_without_lock :
  let ps := mkPstate (held "kb" "other" 1800) (∅ : gmap _ (demo.Graph * _)) [] in
  let run := demo.Dealer 101 "me" "tenant" "kb" [("d1", "alpha")] ps in
  let ps2 := mkPstate (held "kb" "other" 1800)
               ({[ ("tenant", "kb") := (["alpha"; "beta"], ["d0"]) ]}
                : gmap _ (demo.Graph * _)) [] in
  let run2 := demo.WithResolution 101 "me" "tenant" "kb" false ps2 in
  (acquire_lock 101 (kb_lock "me" "kb", redis ps)).1 = Ret false
  ∧ run.1 = Ret ["alpha"]
  ∧ graphs run.2 !! ("tenant", "kb") = Some (["alpha"], ["d1"])
  ∧ events run.2
    = [SetGraph "tenant" "kb" ["alpha"] ["d1"]; Ranked "tenant" "kb";
       GotGraph "tenant" "kb"; Extracted [("d1", "alpha")]]
  ∧ peek (srv (redis run.2)) "kb" = Some (RString "other")
  ∧ Forall (fun c => c ≠ Del "kb") (sent (redis run.2))
  ∧ run2.1 = Ret tt
  ∧ SetGraph "tenant" "kb" ["alpha"; "beta"] ["d0"] ∈ events run2.2
  ∧ peek (srv (redis run2.2)) "kb" = Some (RString "other").
Proof.
  vm_compute. repeat split; try reflexivity.
  - repeat constructor; discriminate.
  - set_solver.
Qed.

(** Commands that cannot remove a key. *)
Lemma harmless_exec c s k :
  harmless c = true → is_Some (keyspace s !! k) → is_Some (keyspace (exec c s).2 !! k).
Proof.
  destruct c; try done; intros _ Hk; cbn [exec];
    unfold srv_get, srv_set, srv_ttl, put; repeat case_match; try done.
  all: cbn; destruct (decide (k0 = k)) as [->|];
    [rewrite lookup_insert_eq|rewrite lookup_insert_ne]; done.
Qed.

Lemma redis_call_sent c w :
  sent (redis_call c w).2 = sent w ∨ sent (redis_call c w).2 = c :: sent w.
Proof.
  destruct (redis_call_cases c w) as [(_ & e & ->)|[(e & w' & -> & _ & H & _)
                                                    |(v & w' & -> & _ & H & _)]]; auto.
Qed.

(** [acquire_lock] sends nothing but SET NX EX, GET, TTL and CLIENT LIST, and
    no key leaves the keyspace while it runs. *)
Lemma acquire_loop_harmless fuel end_time attempt (sent0 : list command) (s0 : server) :
  keeps (fun st : RedisDistributedLock * world =>
           (∃ new, sent st.2 = (new ++ sent0)%list ∧ Forall (fun c => harmless c = true) new)
           ∧ ∀ k, is_Some (keyspace s0 !! k) → is_Some (keyspace (srv st.2) !! k))
        (acquire_loop fuel end_time attempt).
Proof.
  set (I := fun st : RedisDistributedLock * world => _).
  assert (Hcall : ∀ c, harmless c = true → keeps I (io (redis_call c))).
  { intros c Hc. apply keeps_io. unfold I. intros self w [(new & Hs & Hn) Hk].
    cbn [fst snd] in *. split.
    - destruct (redis_call_sent c w) as [->| ->]; [by eauto|].
      exists (c :: new). rewrite Hs. split; [done|by constructor].
    - intros k Hk0. specialize (Hk k Hk0).
      destruct (redis_call_srv c w) as [->| ->]; [done|by apply harmless_exec]. }
  assert (Hlog : ∀ l t, keeps I (io (logging l t))).
  { intros l t. apply keeps_io. intros self. by apply keeps_logging. }
  revert attempt. induction fuel as [|fuel IH]; intros attempt; [by intros st|].
  cbn [acquire_loop].
  apply keeps_bind; [by intros st|intros self].
  apply keeps_bind; [by apply keeps_io; intros ? ?|intros t].
  destruct (Qlt_le_dec t end_time).
  - apply keeps_bind; [by apply Hcall|intros acquired].
    destruct (truthy acquired).
    + apply keeps_bind; [apply Hlog|intros _].
      apply keeps_bind; [by intros [? ?]|intros _; by apply keeps_ret].
    + apply keeps_bind; [by apply Hcall|intros cur].
      apply keeps_bind; [by apply Hcall|intros tl].
      apply keeps_bind; [apply Hlog|intros _].
      apply keeps_bind; [by apply keeps_io; intros ? ?|intros t'].
      apply keeps_bind; [|intros _; apply IH].
      apply keeps_io. by intros self' w' ?.
  - apply keeps_bind; [by apply Hcall|intros cur].
    apply keeps_bind; [by apply Hcall|intros tl].
    apply keeps_bind; [by apply Hcall|intros cl].
    apply keeps_bind; [apply Hlog|intros _; by apply keeps_ret].
Qed.

(** C2, as the code has it.  [release_lock] reaches the store with at most
    one command that can delete, the compare-and-delete script, which the
    server runs as one step; it never sends GET and then DEL; and whenever
    the record is there before and gone after, the stored value was the
    caller's token.  [acquire_lock] sends no deleting command and no key
    leaves the keyspace while it runs.  The static [clean_lock], on a working
    connection, sends DEL and the record is gone whatever its value. *)
Theorem lock_record_deletion (self : RedisDistributedLock) (w : world) :
  let k := lock_key self in
  let unlock := Eval UnlockScript k (lock_value self) in
  let released := (release_lock (self, w)).2.2 in
  (∃ new, sent released = (new ++ sent w)%list
          ∧ (new = [] ∨ new = [unlock] ∨ new = [Get k; unlock]))
  ∧ (srv released = srv w
     ∨ (peek (srv w) k = Some (RString (lock_value self))
        ∧ srv released = forget k (srv w)))
  ∧ (∀ fuel, let acquired := (acquire_lock fuel (self, w)).2.2 in
     (∃ new, sent acquired = (new ++ sent w)%list ∧ Forall (fun c => harmless c = true) new)
     ∧ ∀ k', is_Some (keyspace (srv w) !! k') → is_Some (keyspace (srv acquired) !! k'))
  ∧ (is_Some (REDIS w) → faults w = [] →
     (clean_lock k w).1 = Ret tt
     ∧ sent (clean_lock k w).2 = Del k :: sent w
     ∧ peek (srv (clean_lock k w).2) k = None).
Proof.
  cbn zeta. split; [|split; [|split]].
  - destruct (_lock_acquired self) eqn:Hacq.
    + destruct (release_lock_shape self w Hacq)
        as (w' & -> & _ & _ & _ & [[Hs _]|[[Hs _]|[Hs _]]]); cbn [fst snd]; rewrite Hs.
      * exists []. auto.
      * eexists [_]. auto.
      * eexists [_; _]. auto.
    + rewrite release_lock_unacquired by done. exists []. auto.
  - destruct (_lock_acquired self) eqn:Hacq.
    + destruct (release_lock_shape self w Hacq)
        as (w' & -> & _ & _ & _ & [[_ Hs]|[[_ Hs]|[_ Hs]]]); cbn [fst snd]; auto.
    + rewrite release_lock_unacquired by done. by left.
  - intros fuel. unfold acquire_lock. cbn [bind self_ io time_time fst snd].
    apply (acquire_loop_harmless fuel _ 0%nat (sent w) (srv w) (self, w)).
    split; [by exists []|done].
  - intros [c Hc] Hf. unfold clean_lock, bind. rewrite (redis_call_ok _ _ c) by done.
    cbn [exec]. unfold srv_del.
    destruct (peek (srv w) (lock_key self)) eqn:Hp; cbn; [by rewrite peek_forget|done].
Qed.

Lemma lock_record_deletion_witness :
  sent (clean_lock "kb" (held "kb" "other" 1800)).2 = [Del "kb"]
  ∧ peek (srv (clean_lock "kb" (held "kb" "other" 1800)).2) "kb" = None.
Proof.
  destruct (lock_record_deletion (newcomer "me" "kb") (held "kb" "other" 1800))
    as (_ & _ & _ & H).
  destruct H as (_ & Hs & Hp); [eexists; reflexivity | reflexivity |].
  split; [exact Hs | exact Hp].
Defined.

(** C2 as stated fails: [clean_lock] takes no token, and it deletes a record
    that another holder's token is stored in. *)
Lemma clean_lock_deletes_unconditionally :
  peek (srv (held "kb" "other" 1800)) "kb" = Some (RString "other")
  ∧ (clean_lock "kb" (held "kb" "other" 1800)).1 = Ret tt
  ∧ sent (clean_lock "kb" (held "kb" "other" 1800)).2 = [Del "kb"]
  ∧ peek (srv (clean_lock "kb" (held "kb" "other" 1800)).2) "kb" = None.
Proof. vm_compute. repeat split; reflexivity. Qed.

(** ** Acquiring within the timeout *)

Lemma pymax_tenth (x : Q) : (1 # 10 <= pymax (1 # 10) x)%Q.
Proof. unfold pymax. destruct (Qlt_le_dec (1 # 10) x); lra. Qed.

Lemma pymax_overshoot (t end_time : Q) :
  (t < end_time)%Q → (t + pymax (1 # 10) ((end_time - t) / 10) < end_time + (1 # 10))%Q.
Proof.
  intros Ht. unfold pymax. destruct (Qlt_le_dec (1 # 10) ((end_time - t) / 10)).
  - assert ((end_time - t) / 10 == (end_time - t) * (1 # 10))%Q as -> by (by field). lra.
  - lra.
Qed.

Lemma tick_now d s : (now (tick d s) == now s + d)%Q.
Proof. unfold tick. simpl. apply Qred_correct. Qed.

Lemma peek_string self w v :
  lock_ready self w → peek (srv w) (lock_key self) = Some v → ∃ s, v = RString s.
Proof.
  intros (_ & _ & Hk). unfold peek.
  destruct (keyspace (srv w) !! lock_key self) as [sl|] eqn:E; [|done].
  destruct (Hk sl eq_refl) as [s Hs]. destruct (live _ sl); [|done].
  intros [= <-]. eauto.
Qed.

Lemma srv_ttl_same k s : ∃ z, srv_ttl k s = (Val (RInt z), s).
Proof. unfold srv_ttl. repeat case_match; eauto. Qed.

Lemma srv_get_string self w :
  lock_ready self w → ∃ r, srv_get (lock_key self) (srv w) = (Val r, srv w).
Proof.
  intros Hready. unfold srv_get.
  destruct (peek (srv w) (lock_key self)) as [v|] eqn:Hp; [|by eauto].
  destruct (peek_string _ _ _ Hready Hp) as [sv ->]. eauto.
Qed.

(** The turns of the loop on a ready world: past the deadline it gives up; *)
Lemma acquire_loop_gives_up fuel end_time attempt self w :
  lock_ready self w → (end_time <= now (srv w))%Q →
  ∃ w', acquire_loop (S fuel) end_time attempt (self, w) = (Ret false, (self, w'))
    ∧ srv w' = srv w ∧ naps w' = naps w
    ∧ sent w' = (rev (last_round self false) ++ sent w)%list.
Proof.
  intros Hready Hge. pose proof Hready as ([c Hc] & Hf & Hk).
  destruct (srv_get_string self w Hready) as [r Hr].
  destruct (srv_ttl_same (lock_key self) (srv w)) as [z Hz].
  eexists. split.
  - cbn [acquire_loop]. unfold bind at 1. cbn [self_ fst snd].
    unfold bind at 1. unfold io at 1, time_time at 1. cbn [fst snd].
    destruct (Qlt_le_dec (now (srv w)) end_time) as [Hlt|_]; [lra|].
    unfold bind at 1. unfold io at 1. cbn [fst snd].
    rewrite (redis_call_ok _ _ c) by done. cbn [exec]. rewrite Hr. cbn [fst snd].
    unfold bind at 1. unfold io at 1. cbn [fst snd].
    rewrite (redis_call_ok _ _ c) by done. cbn [exec with_srv with_sent srv].
    rewrite Hz. cbn [fst snd].
    unfold bind at 1. unfold io at 1. cbn [fst snd].
    rewrite (redis_call_ok _ _ c) by done. cbn [exec fst snd]. cbn. reflexivity.
  - cbn. done.
Qed.







(** ** The RedisDB wrapper under transport failures *)

Lemma redis_call_fuel c w : (redis_call c w).1 ≠ OutOfFuel.
Proof.
  destruct (redis_call_cases c w) as [(_ & e & ->)|[(e & w' & -> & _)|(v & w' & -> & _)]];
    done.
Qed.

Lemma redis_pipeline_eq c w :
  redis_pipeline c w
  = match REDIS w with
    | None => (Raise "'NoneType' object has no attribute 'pipeline'", w)
    | Some _ => client_call c w
    end.
Proof. reflexivity. Qed.

Lemma client_call_fuel c w : (client_call c w).1 ≠ OutOfFuel.
Proof.
  unfold client_call. destruct (faults w) as [|[msg|] rest]; simpl; try done.
  all: by destruct (exec c (srv w)) as [[v|e] s'].
Qed.

(** A handler that returns makes a [try ... except Exception] return, as
    long as the body is not a loop out of fuel. *)
Lemma try_except_returns {S A} (body : St S A) (h : string → St S A) (s : S) :
  (body s).1 ≠ OutOfFuel → (∀ e s', ∃ v, (h e s').1 = Ret v) →
  ∃ v, (try_except body h s).1 = Ret v.
Proof.
  intros Hb Hh. unfold try_except. destruct (body s) as [[a|e|] s']; simpl in *;
    [by eauto|apply Hh|done].
Qed.

Lemma bind_fuel {S A B} (m : St S A) (f : A → St S B) (s : S) :
  (m s).1 ≠ OutOfFuel → (∀ a s', (f a s').1 ≠ OutOfFuel) → (bind m f s).1 ≠ OutOfFuel.
Proof.
  intros Hm Hf. unfold bind. destruct (m s) as [[a|e|] s']; simpl in *; [apply Hf|done|done].
Qed.

Section wrapper.
Context {pyobj : Type} (json_dumps : bool → pyobj → string)
  (json_loads : string → result pyobj).

Lemma Payload__init___fuel c q g i fs w :
  (Payload__init__ pyobj json_loads c q g i fs w).1 ≠ OutOfFuel.
Proof. unfold Payload__init__. by repeat case_match. Qed.

Lemma queue_product_from_returns n q m w :
  ∃ b, (queue_product_from pyobj json_dumps n q m w).1 = Ret b.
Proof.
  revert w. induction n as [|n IH]; intros w; [by eexists|].
  cbn [queue_product_from]. unfold bind at 1.
  destruct (try_except_returns
              (bind (redis_pipeline (XAdd q [("message", json_dumps true m)]))
                 (fun _ => ret true))
              (fun e => bind (logging_exception (got_exception "queue_product" q e))
                          (fun _ => ret false)) w) as [b Hb].
  - apply bind_fuel; [|done]. rewrite redis_pipeline_eq.
    destruct (REDIS w); [apply client_call_fuel|done].
  - intros e s'. by eexists.
  - destruct (try_except _ _ w) as [r w']. simpl in Hb. subst r.
    destruct b; [by eexists|apply IH].
Qed.

(** No operation of the wrapper lets an exception out. *)
Lemma wrapper_returns (w : world) :
  (∀ k, ∃ v, (exist k w).1 = Ret v)
  ∧ (∀ k, ∃ v, (get k w).1 = Ret v)
  ∧ (∀ k obj exp, ∃ v, (set_obj pyobj json_dumps k obj exp w).1 = Ret v)
  ∧ (∀ k v exp, ∃ b, (set k v exp w).1 = Ret b)
  ∧ (∀ k m, ∃ b, (sadd k m w).1 = Ret b)
  ∧ (∀ k m, ∃ b, (srem k m w).1 = Ret b)
  ∧ (∀ k, ∃ v, (smembers k w).1 = Ret v)
  ∧ (∀ k m sc, ∃ b, (zadd k m sc w).1 = Ret b)
  ∧ (∀ k lo hi, ∃ v, (zcount k lo hi w).1 = Ret v)
  ∧ (∀ k n, ∃ v, (zpopmin k n w).1 = Ret v)
  ∧ (∀ k lo hi, ∃ v, (zrangebyscore k lo hi w).1 = Ret v)
  ∧ (∀ k v exp, ∃ b, (transaction k v exp w).1 = Ret b)
  ∧ (∀ q m, ∃ b, (queue_product pyobj json_dumps q m w).1 = Ret b)
  ∧ (∀ q g c from, ∃ v, (queue_consumer pyobj json_loads q g c from w).1 = Ret v)
  ∧ (∀ c q g, ∃ v, (get_unacked_for pyobj json_loads c q g w).1 = Ret v)
  ∧ (∀ q g, ∃ v, (queue_info q g w).1 = Ret v).
Proof.
  assert (Hcall : ∀ {A} c (a : A) w', (bind (redis_call c) (fun _ => ret a) w').1 ≠ OutOfFuel).
  { intros A c a w'. apply bind_fuel; [apply redis_call_fuel|done]. }
  assert (Hcall' : ∀ c w', (bind (redis_call c) (fun res => ret res) w').1 ≠ OutOfFuel).
  { intros c w'. apply bind_fuel; [apply redis_call_fuel|done]. }
  repeat split; intros.
  1, 2: unfold exist, get; destruct (REDIS w); [|by eexists].
  1-12: apply try_except_returns; [first [apply redis_call_fuel|apply Hcall|apply Hcall'|idtac]
                                 |intros e s'; by eexists].
  - apply bind_fuel; [|done]. rewrite redis_pipeline_eq.
    destruct (REDIS w); [apply client_call_fuel|done].
  - apply queue_product_from_returns.
  - apply try_except_returns; [|intros e s'; destruct (contains "key" e); by eexists].
    apply bind_fuel; [apply redis_call_fuel|intros r w1].
    destruct r; try done. apply bind_fuel.
    { destruct (negb _); [|done]. apply bind_fuel; [apply redis_call_fuel|done]. }
    intros _ w2. apply bind_fuel; [apply redis_call_fuel|intros r w3].
    destruct r as [| | | | | | | | |[|[st el] ?]| | |]; try done.
    destruct el; [done|]. apply bind_fuel; [done|intros c0 w4].
    apply bind_fuel; [apply Payload__init___fuel|done].
  - apply try_except_returns; [|intros e s'; destruct (contains "key" e); by eexists].
    apply bind_fuel; [apply redis_call_fuel|intros r w1].
    destruct r; try done. destruct (negb _); [done|].
    apply bind_fuel; [apply redis_call_fuel|intros r w2].
    destruct r as [| | | | | | | | | |[|p ?]| |]; try done.
    apply bind_fuel; [apply redis_call_fuel|intros r w3].
    destruct r as [| | | | | | | |[|e ?]| | | |]; try done.
    apply bind_fuel; [done|intros c0 w4].
    apply bind_fuel; [apply Payload__init___fuel|done].
  - apply try_except_returns; [|intros e s'; by eexists].
    apply bind_fuel; [apply redis_call_fuel|intros r w1]. by destruct r.
Qed.
End wrapper.

Section wrapper_failure.
Context {pyobj : Type} (json_dumps : bool → pyobj → string)
  (json_loads : string → result pyobj).

(** C6, as the code has it.  No operation of the wrapper propagates an
    exception, whatever fails and whenever.  When the connection fails the
    call of a key-value, set, sorted-set or transaction operation, the
    operation logs one warning, runs [__open__] once and returns its
    neutral value ([None], [False] or [0]).  [queue_info] returns [None]
    after one warning, [queue_consumer] and [get_unacked_for] return
    [None]; [queue_product] tries the append up to three times, logs each
    failure as an error, and returns [False] when all three fail. *)
Theorem transport_failure_contained (w : world) (c : nat) (msg : string)
    (rest : list (option string)) :
  REDIS w = Some c → faults w = Some msg :: rest →
  (∀ k, (exist k w).1 = Ret RNone ∧ failed_once "exist" k msg w (exist k w).2)
  ∧ (∀ k, (get k w).1 = Ret RNone ∧ failed_once "get" k msg w (get k w).2)
  ∧ (∀ k obj exp, let r := set_obj pyobj json_dumps k obj exp w in
       r.1 = Ret false ∧ failed_once "set_obj" k msg w r.2)
  ∧ (∀ k v exp, (set k v exp w).1 = Ret false
                ∧ failed_once "set" k msg w (set k v exp w).2)
  ∧ (∀ k m, (sadd k m w).1 = Ret false ∧ failed_once "sadd" k msg w (sadd k m w).2)
  ∧ (∀ k m, (srem k m w).1 = Ret false ∧ failed_once "srem" k msg w (srem k m w).2)
  ∧ (∀ k, (smembers k w).1 = Ret RNone
          ∧ failed_once "smembers" k msg w (smembers k w).2)
  ∧ (∀ k m sc, (zadd k m sc w).1 = Ret false
               ∧ failed_once "zadd" k msg w (zadd k m sc w).2)
  ∧ (∀ k lo hi, (zcount k lo hi w).1 = Ret (RInt 0)
                ∧ failed_once "zcount" k msg w (zcount k lo hi w).2)
  ∧ (∀ k n, (zpopmin k n w).1 = Ret RNone
            ∧ failed_once "zpopmin" k msg w (zpopmin k n w).2)
  ∧ (∀ k lo hi, (zrangebyscore k lo hi w).1 = Ret RNone
                ∧ failed_once "zrangebyscore" k msg w (zrangebyscore k lo hi w).2)
  ∧ (∀ k v exp, (transaction k v exp w).1 = Ret false
                ∧ failed_once "transaction" k msg w (transaction k v exp w).2)
  ∧ (∀ q g, (queue_info q g w).1 = Ret None
            ∧ logs (queue_info q g w).2 = (WARNING, got_exception "queue_info" q msg) :: logs w)
  ∧ (∀ q g cn from, (queue_consumer pyobj json_loads q g cn from w).1 = Ret None)
  ∧ (∀ cn q g, (get_unacked_for pyobj json_loads cn q g w).1 = Ret None)
  ∧ (∀ q m m2 m3 rest', rest = Some m2 :: Some m3 :: rest' →
       let r := queue_product pyobj json_dumps q m w in
       r.1 = Ret false
       ∧ logs r.2 = (ERROR, got_exception "queue_product" q m3)
                    :: (ERROR, got_exception "queue_product" q m2)
                    :: (ERROR, got_exception "queue_product" q msg) :: logs w)
  ∧ ∀ w' : world,
      (∀ k, ∃ v, (exist k w').1 = Ret v)
      ∧ (∀ k, ∃ v, (get k w').1 = Ret v)
      ∧ (∀ k obj exp, ∃ v, (set_obj pyobj json_dumps k obj exp w').1 = Ret v)
      ∧ (∀ k v exp, ∃ b, (set k v exp w').1 = Ret b)
      ∧ (∀ k m, ∃ b, (sadd k m w').1 = Ret b)
      ∧ (∀ k m, ∃ b, (srem k m w').1 = Ret b)
      ∧ (∀ k, ∃ v, (smembers k w').1 = Ret v)
      ∧ (∀ k m sc, ∃ b, (zadd k m sc w').1 = Ret b)
      ∧ (∀ k lo hi, ∃ v, (zcount k lo hi w').1 = Ret v)
      ∧ (∀ k n, ∃ v, (zpopmin k n w').1 = Ret v)
      ∧ (∀ k lo hi, ∃ v, (zrangebyscore k lo hi w').1 = Ret v)
      ∧ (∀ k v exp, ∃ b, (transaction k v exp w').1 = Ret b)
      ∧ (∀ q m, ∃ b, (queue_product pyobj json_dumps q m w').1 = Ret b)
      ∧ (∀ q g cn from, ∃ v, (queue_consumer pyobj json_loads q g cn from w').1 = Ret v)
      ∧ (∀ cn q g, ∃ v, (get_unacked_for pyobj json_loads cn q g w').1 = Ret v)
      ∧ (∀ q g, ∃ v, (queue_info q g w').1 = Ret v).
Proof.
  intros HR Hf. destruct w as [s f se lg R cfg op np]. cbn in HR, Hf. subst R f.
  repeat match goal with |- _ ∧ _ => split end.
  1-12: intros; unfold failed_once; cbn; destruct cfg; cbn; done.
  - intros. cbn. done.
  - intros. cbn. destruct (contains "key" msg); done.
  - intros. cbn. destruct (contains "key" msg); done.
  - intros q m m2 m3 rest' ->. cbn. done.
  - intros w'. apply wrapper_returns.
Qed.
End wrapper_failure.

Lemma transport_failure_contained_witness :
  (get "k" (with_faults [Some "Connection refused"] quiet)).1 = Ret RNone
  ∧ opens (get "k" (with_faults [Some "Connection refused"] quiet)).2 = 2%nat.
Proof.
  destruct (transport_failure_contained (pyobj:=string) (fun _ s => s) (fun s => Val s)
              (with_faults [Some "Connection refused"] quiet) 0 "Connection refused" []
              eq_refl eq_refl) as (_ & Hget & _).
  destruct (Hget "k") as (Hr & Ho & _). split; [exact Hr | exact Ho].
Defined.

(** C6 as stated fails on [queue_product]: when the connection fails its
    first append, it logs an error (not a warning), does not run [__open__],
    tries again, and returns [True] when the second append goes through. *)
Lemma queue_product_retries :
  let w := with_faults [Some "Connection refused"] quiet in
  let r := queue_product string (fun _ s => s) "q" "hello" w in
  r.1 = Ret true
  ∧ opens r.2 = opens w
  ∧ logs r.2 = [(ERROR, got_exception "queue_product" "q" "Connection refused")]
  ∧ sent r.2 = [XAdd "q" [("message", "hello")]; XAdd "q" [("message", "hello")]].
Proof. vm_compute. repeat split; reflexivity. Qed.

(** ** Streams and queues *)

Lemma live_same_expiry t v v' e : live t (mkSlot v e) = live t (mkSlot v' e).
Proof. reflexivity. Qed.

Lemma peek_store k v s : peek (store k v s) k = Some v.
Proof.
  unfold store, peek.
  destruct (keyspace s !! k) as [sl|] eqn:Hk; [destruct (live (now s) sl) eqn:Hl|];
    cbn; rewrite lookup_insert_eq; cbn; [|done..].
  unfold live in *. cbn. by rewrite Hl.
Qed.

Lemma stream_at_store k st s : stream_at k (store k (RStream st) s) = Some st.
Proof.
  unfold store, stream_at.
  destruct (keyspace s !! k) as [sl|]; [destruct (live (now s) sl)|];
    cbn; by rewrite lookup_insert_eq.
Qed.

Lemma now_store k v s : now (store k v s) = now s.
Proof. unfold store. by repeat case_match. Qed.

Lemma peek_stream_at q s st : peek s q = Some (RStream st) → stream_at q s = Some st.
Proof.
  unfold peek, stream_at. destruct (keyspace s !! q) as [sl|]; [|done].
  destruct (live (now s) sl); [|done]. by intros [= ->].
Qed.

Lemma has_group_summary g gs :
  has_group g (map group_summary gs)
  = if List.find (fun x => String.eqb (g_name x) g) gs is Some _ then true else false.
Proof.
  unfold has_group. induction gs as [|x gs IH]; [done|].
  cbn. by destruct (String.eqb (g_name x) g).
Qed.

Lemma find_group_name g st x : find_group g st = Some x → g_name x = g.
Proof.
  unfold find_group. intros H. apply find_some in H as [_ H]. by apply String.eqb_eq.
Qed.

Lemma find_group_set_group g st x x' :
  find_group g st = Some x → g_name x' = g →
  find_group g (set_group x' st) = Some x'.
Proof.
  unfold find_group, set_group. cbn. intros H Hn. subst g.
  induction (s_groups st) as [|y gs IH]; [done|]. cbn in *.
  destruct (String.eqb (g_name y) (g_name x')) eqn:Hy.
  - cbn. by rewrite String.eqb_refl.
  - cbn. rewrite Hy. by apply IH.
Qed.

Lemma find_group_created g st es l start :
  find_group g st = None →
  find_group g (mkStream es l (s_groups st ++ [mkGroup g start []]))
  = Some (mkGroup g start []).
Proof.
  unfold find_group. cbn. induction (s_groups st) as [|y gs IH]; cbn.
  - by rewrite String.eqb_refl.
  - destruct (String.eqb (g_name y) g); [done|]. apply IH.
Qed.

Lemma set_group_entries x st : s_entries (set_group x st) = s_entries st.
Proof. reflexivity. Qed.

Lemma stream_at_tick d q s : stream_at q (tick d s) = stream_at q s.
Proof. reflexivity. Qed.

Lemma tick_block s : (now (tick (inject_Z 10000 / 1000) s) == now s + 10)%Q.
Proof. rewrite tick_now. apply Qplus_comp; reflexivity. Qed.

(** The order of stream ids. *)
Lemma id_ltb_lt a b :
  id_ltb a b = true ↔ (a.1 < b.1 ∨ a.1 = b.1 ∧ a.2 < b.2)%N.
Proof.
  unfold id_ltb. rewrite orb_true_iff, andb_true_iff, !N.ltb_lt, N.eqb_eq. done.
Qed.

Lemma id_leb_le a b :
  id_leb a b = true ↔ (a.1 < b.1 ∨ a.1 = b.1 ∧ a.2 ≤ b.2)%N.
Proof.
  unfold id_leb. rewrite negb_true_iff, <- not_true_iff_false, id_ltb_lt. lia.
Qed.

Lemma id_ltb_irrefl a : id_ltb a a = false.
Proof. apply not_true_iff_false. rewrite id_ltb_lt. lia. Qed.

Lemma id_leb_ltb_trans a b c : id_leb a b = true → id_ltb b c = true → id_ltb a c = true.
Proof. rewrite id_leb_le, !id_ltb_lt. lia. Qed.

(** A generated id is above the last id of the stream, and so above 0-0. *)
Lemma next_id_above t last : id_ltb last (next_id t last) = true.
Proof.
  unfold next_id. apply id_ltb_lt.
  destruct (N.ltb_spec last.1 t); cbn; lia.
Qed.

Lemma next_id_positive t last : id_ltb (0%N, 0%N) (next_id t last) = true.
Proof.
  apply (id_leb_ltb_trans _ last); [|apply next_id_above].
  apply id_leb_le. cbn. lia.
Qed.

Lemma next_id_bound t last (b : N) :
  (t ≤ b)%N → (last.1 ≤ b)%N → ((next_id t last).1 ≤ b)%N.
Proof. unfold next_id. intros. by destruct (last.1 <? t)%N. Qed.

(** What an append leaves for a group that had read everything, and for a
    range query from the new id. *)
Lemma unread_appended s fields st x :
  id_leb (g_last_delivered x) (s_last_id st) = true →
  unread x (appended s fields st)
  = (unread x st ++ [mkEntry (next_id (ms_now s) (s_last_id st)) fields])%list.
Proof.
  intros Hx. unfold unread, appended. cbn. rewrite List.filter_app. cbn.
  by rewrite (id_leb_ltb_trans _ _ _ Hx (next_id_above _ _)).
Qed.

Lemma from_id_appended s fields st :
  Forall (fun e => id_leb (e_id e) (s_last_id st) = true) (s_entries st) →
  from_id (next_id (ms_now s) (s_last_id st)) (appended s fields st)
  = [mkEntry (next_id (ms_now s) (s_last_id st)) fields].
Proof.
  intros Hall. unfold from_id, appended. cbn. rewrite List.filter_app. cbn.
  unfold id_leb at 2. rewrite id_ltb_irrefl. cbn.
  replace (List.filter _ (s_entries st)) with (@nil entry); [done|].
  symmetry. induction Hall as [|e es He _ IH]; [done|]. cbn.
  unfold id_leb at 1. by rewrite (id_leb_ltb_trans _ _ _ He (next_id_above _ _)).
Qed.

(** The pending lines of a consumer that had none, after one delivery. *)
Lemma pending_of_delivered c i l :
  (i.1 ≤ scan_bound)%N →
  Forall (fun p => p_consumer p ≠ c) l →
  List.filter
    (fun p => String.eqb (p_consumer p) c && (0 <=? (p_id p).1)%N
              && ((p_id p).1 <=? scan_bound)%N)
    (pel_insert (mkPending i c) l)
  = [mkPending i c].
Proof.
  intros Hi Hall.
  assert (Hnone : ∀ l', Forall (fun p => p_consumer p ≠ c) l' →
            List.filter
              (fun p => String.eqb (p_consumer p) c && (0 <=? (p_id p).1)%N
                        && ((p_id p).1 <=? scan_bound)%N) l' = []).
  { induction 1 as [|p l' Hp _ IH]; [done|]. cbn.
    apply String.eqb_neq in Hp. by rewrite Hp. }
  assert (Hme : String.eqb c c && (0 <=? i.1)%N && (i.1 <=? scan_bound)%N = true).
  { rewrite String.eqb_refl. apply N.leb_le in Hi. rewrite Hi.
    assert ((0 <=? i.1)%N = true) as -> by (apply N.leb_le; lia). done. }
  induction Hall as [|p l' Hp Hl' IH]; cbn.
  - by rewrite Hme.
  - destruct (id_ltb i (p_id p)); [|destruct (id_eqb i (p_id p))]; cbn.
    + rewrite Hme. apply String.eqb_neq in Hp. rewrite Hp. cbn. by rewrite Hnone.
    + rewrite Hme. by rewrite Hnone.
    + apply String.eqb_neq in Hp. rewrite Hp. cbn. apply IH.
Qed.


Lemma run_eta {S A} (r : outcome A * S) (o : outcome A) : r.1 = o → r = (o, r.2).
Proof. destruct r. by intros <-. Qed.

Section queues.

Context {pyobj : Type} (json_dumps : bool → pyobj → string)
  (json_loads : string → result pyobj).

(** [queue_product] on a working connection: one XADD, and [True]. *)
Lemma queue_product_run q M (w : world) client st :
  REDIS w = Some client → faults w = [] →
  queue_of q (srv w) = Some st →
  queue_product pyobj json_dumps q M w
  = (Ret true,
     with_srv (store q (RStream (appended (srv w) [("message", json_dumps true M)] st))
                 (srv w))
       (with_sent (XAdd q [("message", json_dumps true M)]) w)).
Proof.
  intros HR Hf Hq. destruct w as [s f se lg R cfg op np]. cbn in HR, Hf, Hq. subst R f.
  unfold queue_product, queue_product_from, try_except, bind, redis_pipeline, client_call.
  cbn [REDIS faults srv exec fst snd with_srv with_sent].
  unfold srv_xadd, queue_of in *.
  destruct (peek s q) as [[| | |st']|]; simplify_eq; done.
Qed.

(** [queue_consumer] on a working connection and an existing stream: the
    group is made if it is missing, one entry is asked for, and the oldest
    entry the group has not seen, if there is one, goes to the consumer. *)
Lemma queue_consumer_run q g c (w : world) client st m :
  REDIS w = Some client → faults w = [] →
  peek (srv w) q = Some (RStream st) →
  (∀ e, head (unread (group_at_origin g st) st) = Some e → decodes json_loads e m) →
  let x0 := group_at_origin g st in
  let run := queue_consumer pyobj json_loads q g c NewEntries w in
  run.1 = Ret ((fun e => mkPayload (Some client) q g (e_id e) m) <$> head (unread x0 st))
  ∧ sent run.2
    = (XReadGroup g c 1 10000 q NewEntries
       :: (if find_group g st is Some _ then [] else [XGroupCreate q g (0%N, 0%N) true])
       ++ XInfoGroups q :: sent w)%list
  ∧ (∃ st', stream_at q (srv run.2) = Some st'
            ∧ (is_Some (head (unread x0 st)) → peek (srv run.2) q = Some (RStream st'))
            ∧ s_entries st' = s_entries st
            ∧ find_group g st'
              = Some (match head (unread x0 st) with
                      | Some e => deliver c [e] x0
                      | None => x0
                      end))
  ∧ match head (unread x0 st) with
    | Some e => now (srv run.2) = now (srv w)
    | None => (now (srv run.2) == now (srv w) + 10)%Q
    end
  ∧ REDIS run.2 = REDIS w ∧ faults run.2 = [] ∧ logs run.2 = logs w.
Proof.
  intros HR Hf Hpeek Hdec. cbv zeta.
  set (x0 := group_at_origin g st) in *.
  assert (Hx0 : x0 = match find_group g st with
                     | Some x => x
                     | None => mkGroup g (0%N, 0%N) []
                     end)
    by (unfold x0, group_at_origin; by destruct (find_group g st)).
  clearbody x0.
  destruct w as [s f se lg R cfg op np]. cbn in HR, Hf, Hpeek. subst R f.
  unfold queue_consumer, try_except, bind, redis_call, client_call.
  cbn [REDIS faults srv exec fst snd with_srv with_sent].
  unfold srv_xinfo_groups. rewrite Hpeek. cbn [fst snd].
  rewrite has_group_summary. fold (find_group g st).
  destruct (find_group g st) as [x|] eqn:Hfind; cbn [negb] in *; subst x0.
  - cbn [ret with_srv with_sent REDIS faults srv]. unfold srv_xreadgroup.
    rewrite Hpeek, Hfind.
    change (List.filter _ (s_entries st)) with (unread x st).
    destruct (unread x st) as [|e es] eqn:Hun; cbn [take head fmap option_fmap option_map].
    + cbn. repeat split; [|apply tick_block].
      exists st. rewrite stream_at_tick, <- (peek_stream_at _ _ _ Hpeek).
      repeat split; [|done..]. by intros [? [=]].
    + cbn [with_srv with_sent REDIS faults srv fst snd self_REDIS].
      destruct (Hdec e eq_refl) as (text & Hget & Hload).
      unfold Payload__init__. rewrite Hget, Hload. cbn.
      repeat split; [|by rewrite now_store].
      eexists. rewrite stream_at_store, peek_store. split; [done|]. split; [done|].
      split; [done|].
      apply (find_group_set_group _ _ x); [done|]. cbn. by apply find_group_name in Hfind.
  - cbn [ret with_srv with_sent REDIS faults srv]. unfold srv_xgroup_create.
    rewrite Hpeek, Hfind. cbn [ret with_srv with_sent REDIS faults srv fst snd].
    unfold srv_xreadgroup. rewrite peek_store.
    rewrite (find_group_created g st _ _ _ Hfind).
    set (x0 := mkGroup g (0%N, 0%N) []) in *.
    change (List.filter _ (s_entries _)) with (unread x0 st).
    destruct (unread x0 st) as [|e es] eqn:Hun; cbn [take head fmap option_fmap option_map].
    + cbn. repeat split; [|etransitivity; [apply tick_block|by rewrite now_store]].
      eexists. rewrite stream_at_tick, stream_at_store. split; [done|].
      split; [by intros [? [=]]|]. split; [done|].
      by apply find_group_created.
    + cbn [with_srv with_sent REDIS faults srv fst snd self_REDIS].
      destruct (Hdec e eq_refl) as (text & Hget & Hload).
      unfold Payload__init__. rewrite Hget, Hload. cbn.
      repeat split; [|by rewrite !now_store].
      eexists. rewrite stream_at_store, peek_store. split; [done|]. split; [done|].
      split; [done|].
      apply (find_group_set_group _ _ x0); [|done]. by apply find_group_created.
Qed.

(** [get_unacked_for] on a working connection, for a group that exists: it
    asks for the oldest pending line of the consumer within the scan and for
    the first entry from that id on, and changes nothing on the server. *)
Lemma get_unacked_for_run c q g (w : world) client st x m :
  REDIS w = Some client → faults w = [] →
  peek (srv w) q = Some (RStream st) →
  find_group g st = Some x →
  (∀ p, head (pending_of c x) = Some p →
        ∃ e, head (from_id (p_id p) st) = Some e ∧ decodes json_loads e m) →
  let run := get_unacked_for pyobj json_loads c q g w in
  run.1 = Ret ((fun p => mkPayload (Some client) q g (p_id p) m) <$> head (pending_of c x))
  ∧ srv run.2 = srv w
  ∧ sent run.2
    = ((if head (pending_of c x) is Some p then [XRange q (p_id p) 1] else [])
       ++ XPendingRange q g 0 scan_bound 1 c :: XInfoGroups q :: sent w)%list
  ∧ REDIS run.2 = REDIS w ∧ logs run.2 = logs w ∧ opens run.2 = opens w
  ∧ faults run.2 = [].
Proof.
  intros HR Hf Hpeek Hfind Hdec. cbv zeta.
  destruct w as [s f se lg R cfg op np]. cbn in HR, Hf, Hpeek. subst R f.
  unfold get_unacked_for, try_except, bind, redis_call, client_call.
  cbn [REDIS faults srv exec fst snd with_srv with_sent].
  unfold srv_xinfo_groups. rewrite Hpeek. cbn [fst snd].
  rewrite has_group_summary. fold (find_group g st). rewrite Hfind. cbn [negb].
  cbn [REDIS faults srv exec fst snd with_srv with_sent].
  unfold srv_xpending_range. rewrite Hpeek, Hfind. cbn [fst snd].
  change (List.filter _ (g_pel x)) with (pending_of c x).
  destruct (pending_of c x) as [|p ps] eqn:Hpend;
    cbn [take head fmap option_fmap option_map].
  - done.
  - cbn [REDIS faults srv exec fst snd with_srv with_sent].
    destruct (Hdec p eq_refl) as (e & He & text & Hget & Hload).
    unfold srv_xrange. rewrite Hpeek. cbn [fst snd].
    change (List.filter _ (s_entries st)) with (from_id (p_id p) st).
    destruct (from_id (p_id p) st) as [|e' es]; [done|]. cbn in He. simplify_eq.
    cbn [take]. cbn [with_srv with_sent REDIS faults srv fst snd self_REDIS].
    unfold Payload__init__. rewrite Hget, Hload. done.
Qed.

(** C7.  On a working connection, with queue [q] read to its end by group [g]
    and nothing pending for consumer [c]: a message [M] that survives the
    JSON round trip is produced, then consumed by [c] and not acknowledged;
    [get_unacked_for] then returns a payload that carries [M] under the id
    of the entry that was consumed.  It gets there with XINFO GROUPS, XPENDING
    and XRANGE, sends no group read, and leaves the server as it was. *)
Theorem unacked_message_recovered q g c M (w : world) client :
  REDIS w = Some client → faults w = [] →
  json_loads (json_dumps true M) = Val M →
  drained q g c (srv w) →
  ∃ i w1 w2 w3,
    queue_product pyobj json_dumps q M w = (Ret true, w1)
    ∧ queue_consumer pyobj json_loads q g c NewEntries w1
      = (Ret (Some (mkPayload (Some client) q g i M)), w2)
    ∧ get_unacked_for pyobj json_loads c q g w2
      = (Ret (Some (mkPayload (Some client) q g i M)), w3)
    ∧ get_message (mkPayload (Some client) q g i M) = M
    ∧ srv w3 = srv w2
    ∧ sent w3
      = (XRange q i 1 :: XPendingRange q g 0 scan_bound 1 c :: XInfoGroups q :: sent w2)%list.
Proof.
  intros HR Hf Hjson (Hnow & Hdr).
  set (fields := [("message", json_dumps true M)]).
  assert (∃ st0, queue_of q (srv w) = Some st0
                 ∧ ((s_last_id st0).1 ≤ scan_bound)%N
                 ∧ Forall (fun e => id_leb (e_id e) (s_last_id st0) = true) (s_entries st0)
                 ∧ id_leb (g_last_delivered (group_at_origin g st0)) (s_last_id st0) = true
                 ∧ unread (group_at_origin g st0) st0 = []
                 ∧ Forall (fun p => p_consumer p ≠ c) (g_pel (group_at_origin g st0)))
    as (st0 & Hq & Hlast & Hids & Hdeliv & Hread & Hpel).
  { unfold queue_of. destruct (peek (srv w) q) as [[| | |st]|]; try done.
    - exists st. destruct Hdr as (? & ? & Hg). split; [done|]. split; [done|]. split; [done|].
      unfold group_at_origin. destruct (find_group g st) as [x|]; cbn.
      + done.
      + unfold unread. rewrite Hg. repeat split; [|constructor]. apply id_leb_le. cbn. lia.
    - exists empty_stream. repeat split; try done; constructor. }
  set (i := next_id (ms_now (srv w)) (s_last_id st0)).
  set (st1 := appended (srv w) fields st0).
  set (e := mkEntry i fields).
  pose proof (queue_product_run q M w client st0 HR Hf Hq) as Hprod.
  fold fields st1 in Hprod.
  set (w1 := with_srv (store q (RStream st1) (srv w)) (with_sent (XAdd q fields) w)) in *.
  assert (Hx1 : group_at_origin g st1 = group_at_origin g st0) by done.
  assert (Hun : unread (group_at_origin g st1) st1 = [e]).
  { rewrite Hx1. unfold st1. rewrite unread_appended by done. by rewrite Hread. }
  assert (Hdece : decodes json_loads e M) by (by eexists).
  destruct (queue_consumer_run q g c w1 client st1 M) as
    (Hc1 & Hc2 & (st2 & _ & Hpeek2 & Hent2 & Hfind2) & _ & HR2 & Hf2 & _).
  { done. } { done. } { apply peek_store. }
  { rewrite Hun. by intros ? [= <-]. }
  rewrite Hun in Hc1, Hpeek2, Hfind2. cbn [head fmap option_fmap option_map] in *.
  set (run2 := queue_consumer pyobj json_loads q g c NewEntries w1) in *.
  specialize (Hpeek2 (mk_is_Some _ _ eq_refl)).
  assert (Hi : (i.1 ≤ scan_bound)%N) by (by apply next_id_bound).
  assert (Hpend : pending_of c (deliver c [e] (group_at_origin g st1)) = [mkPending i c]).
  { rewrite Hx1. unfold pending_of, deliver. cbn [g_pel fold_left].
    by apply (pending_of_delivered c i). }
  assert (Hfrom : from_id i st2 = [e]).
  { unfold from_id. rewrite Hent2. by apply from_id_appended. }
  destruct (get_unacked_for_run c q g run2.2 client st2 _ M
              (eq_trans HR2 HR) Hf2 Hpeek2 Hfind2) as (Hu1 & Hu2 & Hu3 & _).
  { rewrite Hpend. intros p [= <-]. exists e. cbn [p_id]. by rewrite Hfrom. }
  rewrite Hpend in Hu1, Hu3. cbn [head fmap option_fmap option_map p_id app] in *.
  exists i, w1, run2.2, (get_unacked_for pyobj json_loads c q g run2.2).2.
  split; [done|]. split; [by apply run_eta|].
  split; [by apply run_eta|]. done.
Qed.

End queues.

(** A first message on a fresh queue. *)
Lemma unacked_message_recovered_witness :
  ∃ i w1 w2 w3,
    queue_product string (fun _ s => s) "q" "hello" quiet = (Ret true, w1)
    ∧ queue_consumer string (fun s => Val s) "q" "g" "c" NewEntries w1
      = (Ret (Some (mkPayload (Some 0%nat) "q" "g" i "hello")), w2)
    ∧ get_unacked_for string (fun s => Val s) "c" "q" "g" w2
      = (Ret (Some (mkPayload (Some 0%nat) "q" "g" i "hello")), w3)
    ∧ get_message (mkPayload (Some 0%nat) "q" "g" i "hello") = "hello"
    ∧ srv w3 = srv w2
    ∧ sent w3
      = (XRange "q" i 1 :: XPendingRange "q" "g" 0 scan_bound 1 "c" :: XInfoGroups "q"
         :: sent w2)%list.
Proof.
  apply (unacked_message_recovered (fun _ s => s) (fun s => Val s) "q" "g" "c" "hello"
           quiet 0%nat).
  - reflexivity.
  - reflexivity.
  - reflexivity.
  - split; [vm_compute; discriminate|exact I].
Defined.

Section consumer.

Context {pyobj : Type} (json_loads : string → result pyobj).


End consumer.


Lemma list_set_NoDup (l : list string) : NoDup (list_set l).
Proof. unfold list_set. apply NoDup_elements. Qed.

Lemma elem_of_list_set (l : list string) (d : string) : d ∈ list_set l ↔ d ∈ l.
Proof. unfold list_set. by rewrite elem_of_elements, elem_of_list_to_set. Qed.

Section dealer.

Context {Graph : Type}.
Variable nx_Graph : Graph.
Variable add_node : string → string → Graph → Graph.
Variable add_edge : string → string → Q → Graph → Graph.
Variable extractor : list (string * string) → list entity * list relation.
Variable graph_merge : Graph → Graph → Graph.
Variable pagerank_nhop : Graph → nat → Graph.

Local Abbreviation Dealer :=
  (Dealer__init__ Graph nx_Graph add_node add_edge extractor graph_merge pagerank_nhop).

(** C9.  When [Dealer] returns, the document ids it has persisted for the
    knowledge base, next to the graph it returns, have no duplicates and are
    exactly the ids of the chunks of the batch together with the ids that
    were on record before. *)
Theorem persisted_docids_union fuel uuid4 tenant_id kb_id chunks (ps : pstate Graph) graph :
  (Dealer fuel uuid4 tenant_id kb_id chunks ps).1 = Ret graph →
  ∃ docids,
    graphs (Dealer fuel uuid4 tenant_id kb_id chunks ps).2 !! (tenant_id, kb_id)
      = Some (graph, docids)
    ∧ head (events (Dealer fuel uuid4 tenant_id kb_id chunks ps).2)
      = Some (SetGraph tenant_id kb_id graph docids)
    ∧ NoDup docids
    ∧ ∀ d, d ∈ docids ↔ d ∈ map fst chunks ∨ d ∈ stored_docids tenant_id kb_id ps.
Proof.
  intros Hret.
  remember (Dealer fuel uuid4 tenant_id kb_id chunks ps) as run eqn:Hrun.
  unfold Dealer__init__ in Hrun. unfold bind at 1 in Hrun. unfold emit at 1 in Hrun.
  destruct (extractor chunks) as [ents rels]. cbv beta iota in Hrun.
  match type of Hrun with context [with_ _ _ ?b ?p] => set (body := b) in Hrun;
    set (ps0 := p) in Hrun end.
  assert (∀ ps1, graphs ps1 = graphs ps0 →
            ∃ g docids,
              body ps1 = (Ret g, mkPstate (redis ps1)
                                   (<[(tenant_id, kb_id) := (g, docids)]> (graphs ps1))
                                   (SetGraph tenant_id kb_id g docids
                                    :: tl (events (body ps1).2)))
              ∧ NoDup docids
              ∧ ∀ d, d ∈ docids ↔ d ∈ map fst chunks ∨ d ∈ stored_docids tenant_id kb_id ps)
    as Hbody.
  { intros ps1 Hg. unfold stored_docids.
    change (graphs ps) with (graphs ps0). rewrite <- Hg.
    subst body. unfold get_graph, set_graph, update_nodes_pagerank_nhop_neighbour, bind, emit, ret.
    cbn [fst snd graphs events redis].
    destruct (graphs ps1 !! (tenant_id, kb_id)) as [[g ids]|] eqn:Hold; cbn.
    - destruct ids as [|i ids]; cbn; do 2 eexists; (split; [reflexivity|]);
        (split; [apply list_set_NoDup|]); intros d; rewrite !elem_of_list_set.
      + rewrite elem_of_nil. tauto.
      + rewrite elem_of_app, elem_of_list_set. done.
    - do 2 eexists; (split; [reflexivity|]);
        (split; [apply list_set_NoDup|]); intros d; rewrite !elem_of_list_set.
      rewrite elem_of_nil. tauto. }
  destruct (with__returns fuel (kb_lock uuid4 kb_id) body ps0) as
    [(entered & ps1 & a & Henter & Hg1 & He1 & Hb & Hw & Hg & He)|(Hno & _)].
  { intros ps1 Hg _. destruct (Hbody ps1 Hg) as (g & docids & -> & _). by exists g. }
  - destruct (Hbody ps1 Hg1) as (g & docids & Hb' & Hnd & Hin).
    subst run. rewrite Hw in Hret. rewrite Hb' in Hb. cbn in Hb. simplify_eq.
    exists docids. rewrite Hg, He, Hb'. cbn [graphs events snd head].
    by rewrite lookup_insert_eq.
  - subst run. by destruct (Hno graph).
Qed.

End dealer.

(** The batch [d1, d2] on top of the stored [d2, d3]. *)
Lemma persisted_docids_union_witness :
  ∃ docids,
    graphs (demo.Dealer 101 "me" "tenant" "kb" [("d1", "alpha"); ("d2", "beta")]
              (mkPstate quiet {[ ("tenant", "kb") := (["beta"; "gamma"], ["d2"; "d3"]) ]} [])).2
      !! ("tenant", "kb") = Some (["beta"; "gamma"; "alpha"], docids)
    ∧ head (events (demo.Dealer 101 "me" "tenant" "kb" [("d1", "alpha"); ("d2", "beta")]
              (mkPstate quiet {[ ("tenant", "kb") := (["beta"; "gamma"], ["d2"; "d3"]) ]} [])).2)
      = Some (SetGraph "tenant" "kb" ["beta"; "gamma"; "alpha"] docids)
    ∧ NoDup docids
    ∧ ∀ d, d ∈ docids
           ↔ d ∈ map fst [("d1", "alpha"); ("d2", "beta")]
             ∨ d ∈ stored_docids "tenant" "kb"
                     (mkPstate quiet
                        {[ ("tenant", "kb") := (["beta"; "gamma"], ["d2"; "d3"]) ]} []).
Proof.
  apply (persisted_docids_union [] demo.add_node demo.add_edge demo.extractor
           demo.graph_merge (fun g _ => g) 101 "me" "tenant" "kb"
           [("d1", "alpha"); ("d2", "beta")]
           (mkPstate quiet {[ ("tenant", "kb") := (["beta"; "gamma"], ["d2"; "d3"]) ]} [])
           ["beta"; "gamma"; "alpha"]).
  vm_compute. reflexivity.
Defined.

Section missing_graph.

Context {Graph : Type}.
Variable number_of_nodes : Graph → nat.
Variable pagerank_nhop : Graph → nat → Graph.
Variable EntityResolution : Graph → resolution Graph.
Variable CommunityReportsExtractor : Graph → reports.
Variable index_name tokenize fine_grained_tokenize : string → string.
Variable dumps_report : string → string → string.
Variable chunk_id : chunk → string.

Local Abbreviation WithResolution :=
  (WithResolution__init__ Graph number_of_nodes pagerank_nhop EntityResolution index_name).
Local Abbreviation WithCommunity :=
  (WithCommunity__init__ Graph number_of_nodes CommunityReportsExtractor index_name
     tokenize fine_grained_tokenize dumps_report chunk_id).

Lemma aborted_with {A} fuel uuid4 tenant_id kb_id callback (ps : pstate Graph)
    (body : P Graph (option A)) (rest : A → P Graph unit) :
  (∀ ps1, graphs ps1 = graphs ps → events ps1 = events ps →
     (body ps1).1 = Ret None
     ∧ graphs (body ps1).2 = graphs ps
     ∧ events (body ps1).2 = fetch_failure callback tenant_id kb_id (events ps)) →
  aborted fuel uuid4 tenant_id kb_id callback ps
    (bind (with_ fuel (kb_lock uuid4 kb_id) body)
       (fun locked => match locked with None => ret tt | Some a => rest a end) ps).
Proof.
  intros Hbody. unfold aborted.
  destruct (with__returns fuel (kb_lock uuid4 kb_id) body ps) as
    [(entered & ps1 & a & Henter & Hg1 & He1 & Hb & Hw & Hg & He)|(Hno & Hne & Hg & He)].
  { intros ps1 Hg He. destruct (Hbody ps1 Hg He) as (-> & _). by eexists. }
  - destruct (Hbody ps1 Hg1 He1) as (Hb' & Hg' & He').
    rewrite Hb' in Hb. simplify_eq.
    unfold bind.
    destruct (with_ fuel (kb_lock uuid4 kb_id) body ps) as [o ps2]. cbn in *. subst o.
    cbn. rewrite Hg, Hg', He, He'.
    split; [done|]. split; [by right|]. done.
  - unfold bind.
    destruct (with_ fuel (kb_lock uuid4 kb_id) body ps) as [[a|e|] ps2]; cbn in *.
    + by destruct (Hno a).
    + split; [done|]. split; [by left|].
      intros entered ps1 Henter. by destruct (Hne entered ps1).
    + split; [done|]. split; [by left|].
      intros entered ps1 Henter. by destruct (Hne entered ps1).
Qed.

(** C10.  [WithResolution] and [WithCommunity] on a knowledge base whose
    stored graph is missing or has no node: the graphs on record stay as they
    are, and a pipeline that got past the lock code returns having done no
    more than load the graph and call the callback, if it has one, with
    [-1] and the message of the failure; no resolution, no report, no save,
    no deletion from and no insertion into the index. *)
Theorem missing_graph_aborts fuel uuid4 tenant_id kb_id callback (ps : pstate Graph) :
  no_graph number_of_nodes (stored_graph tenant_id kb_id ps) = true →
  aborted fuel uuid4 tenant_id kb_id callback ps
    (WithResolution fuel uuid4 tenant_id kb_id callback ps)
  ∧ aborted fuel uuid4 tenant_id kb_id callback ps
      (WithCommunity fuel uuid4 tenant_id kb_id callback ps).
Proof.
  intros Hno. unfold stored_graph in Hno.
  split.
  - unfold WithResolution__init__. apply aborted_with.
    intros [w1 gs1 ev1] Hg He. cbn in Hg, He. subst gs1 ev1.
    destruct (graphs ps !! (tenant_id, kb_id)) as [[g ids]|] eqn:Hstored;
      cbn [fmap option_fmap option_map fst no_graph] in Hno;
      unfold get_graph, fetch_failed, fetch_failure, log, call_back, bind, emit, ret;
      cbn; rewrite Hstored; cbn; rewrite ?Hno; by destruct callback.
  - unfold WithCommunity__init__.
    match goal with |- aborted _ _ _ _ _ _ (bind _ ?f _) =>
      change f with (fun locked : option (reports * list string) =>
        match locked with
        | None => ret tt
        | Some a => (fun a : reports * list string => let (cr, doc_ids) := a in
            call_back callback None
              ("Graph community extraction is done. Indexing "
               +:+ pretty (length (structured_output cr)) +:+ " reports.") >>
            emit (DocDelete [("knowledge_graph_kwd", Kwd "community_report");
                             ("kb_id", Kwd kb_id)] (index_name tenant_id) kb_id) >>
            insert_reports Graph index_name tokenize fine_grained_tokenize dumps_report
              chunk_id tenant_id kb_id doc_ids (zip (structured_output cr) (output cr))) a
        end) end.
    apply aborted_with.
    intros [w1 gs1 ev1] Hg He. cbn in Hg, He. subst gs1 ev1.
    destruct (graphs ps !! (tenant_id, kb_id)) as [[g ids]|] eqn:Hstored;
      cbn [fmap option_fmap option_map fst no_graph] in Hno;
      unfold get_graph, fetch_failed, fetch_failure, log, call_back, bind, emit, ret;
      cbn; rewrite Hstored; cbn; rewrite ?Hno; by destruct callback.
Qed.

End missing_graph.

(** A knowledge base whose stored graph has no node, and a callback. *)
Lemma missing_graph_aborts_witness :
  aborted 101 "me" "tenant" "kb" true
    (mkPstate quiet {[ ("tenant", "kb") := ([], ["d0"]) ]} [])
    (demo.WithResolution 101 "me" "tenant" "kb" true
       (mkPstate quiet {[ ("tenant", "kb") := ([], ["d0"]) ]} []))
  ∧ aborted 101 "me" "tenant" "kb" true
      (mkPstate quiet {[ ("tenant", "kb") := ([], ["d0"]) ]} [])
      (demo.WithCommunity 101 "me" "tenant" "kb" true
         (mkPstate quiet {[ ("tenant", "kb") := ([], ["d0"]) ]} [])).
Proof.
  apply (missing_graph_aborts (@length string) (fun g _ => g)
           (fun g => mkResolution g []) (fun g => mkReports [] []) demo.index_name
           id id (fun rep ev => rep) docnm_kwd 101 "me" "tenant" "kb" true
           (mkPstate quiet {[ ("tenant", "kb") := ([], ["d0"]) ]} [])).
  reflexivity.
Defined.

(** The same run, evaluated: the lock is taken and given back, and the
    callback hears of the failure. *)
Example missing_graph_run :
  let run := demo.WithResolution 101 "me" "tenant" "kb" true
               (mkPstate quiet (∅ : gmap _ (demo.Graph * _)) []) in
  run.1 = Ret tt
  ∧ events run.2 = [Callback (Some (-1)%Z) "Faild to fetch the graph."; GotGraph "tenant" "kb"]
  ∧ graphs run.2 = ∅
  ∧ peek (srv (redis run.2)) "kb" = None.
Proof. vm_compute. done. Qed.

(** * Further properties of [rag/utils/redis_conn.py] *)

(** ** Keys and values *)

Lemma peek_put k v e s :
  peek (put k v e s) k = if live (now s) (mkSlot v e) then Some v else None.
Proof. unfold peek, put. cbn. by rewrite lookup_insert_eq. Qed.

Lemma peek_tick d k s :
  peek (tick d s) k
  = match keyspace s !! k with
    | Some sl => if live (Qred (now s + d)) sl then Some (sl_value sl) else None
    | None => None
    end.
Proof. reflexivity. Qed.

(** X1.  A value written with [set] is read back by [get] until its [exp] seconds
    are over, and is gone from then on. *)
Theorem set_then_get k v exp (w : world) client (d : Q) :
  REDIS w = Some client → faults w = [] → (0 < exp)%Z → (0 <= d)%Q →
  let w1 := (set k v exp w).2 in
  let later := with_srv (tick d (srv w1)) w1 in
  (set k v exp w).1 = Ret true
  ∧ (get k later).1 = Ret (if Qlt_le_dec d (inject_Z exp) then RStr v else RNone)
  ∧ srv (get k later).2 = srv later.
Proof.
  intros HR Hf Hexp Hd. cbv zeta.
  destruct w as [s f se lg R cfg op np]. cbn in HR, Hf. subst R f.
  unfold set, get, try_except, bind, redis_call, client_call.
  cbn [REDIS faults srv exec fst snd with_srv with_sent].
  unfold srv_set. destruct (Z.leb_spec exp 0) as [|_]; [lia|].
  cbn [andb fst snd REDIS faults srv exec with_srv with_sent ret].
  split; [done|].
  unfold srv_get. rewrite peek_tick. cbn [put keyspace now]. rewrite lookup_insert_eq.
  unfold live. cbn [sl_expire sl_value].
  destruct (Qlt_le_dec (Qred (now s + d)) (now s + inject_Z exp)) as [H1|H1];
    destruct (Qlt_le_dec d (inject_Z exp)) as [H2|H2]; rewrite Qred_correct in H1;
    try done; lra.
Qed.

Lemma set_then_get_witness :
  let w1 := (set "k" "v" 3600 quiet).2 in
  let later := with_srv (tick 3599 (srv w1)) w1 in
  (set "k" "v" 3600 quiet).1 = Ret true
  ∧ (get "k" later).1 = Ret (if Qlt_le_dec 3599 (inject_Z 3600) then RStr "v" else RNone)
  ∧ srv (get "k" later).2 = srv later.
Proof.
  apply (set_then_get "k" "v" 3600 quiet 0%nat 3599); [reflexivity|reflexivity|lia|].
  vm_compute. discriminate.
Defined.

(** X3.  Without a client object [get] and [exist] answer [None] and do nothing
    else, not even an attempt to connect again.  [set] fails on the missing
    attribute: it logs a warning, runs [__open__] and returns [False]; when
    the configuration is good the client is back, and the next [set]
    succeeds. *)
Theorem without_client k v exp (w : world) :
  REDIS w = None →
  get k w = (Ret RNone, w)
  ∧ exist k w = (Ret RNone, w)
  ∧ (set k v exp w).1 = Ret false
  ∧ logs (set k v exp w).2
    = ((if config_ok w then [] else [(WARNING, Text "Redis can't be connected.")])
       ++ (WARNING, got_exception "set" k "'NoneType' object has no attribute 'set'")
          :: logs w)%list
  ∧ srv (set k v exp w).2 = srv w
  ∧ sent (set k v exp w).2 = sent w
  ∧ REDIS (set k v exp w).2 = (if config_ok w then Some (S (opens w)) else None)
  ∧ (config_ok w = true → faults w = [] → (0 < exp)%Z →
     (set k v exp (set k v exp w).2).1 = Ret true
     ∧ peek (srv (set k v exp (set k v exp w).2).2) k = Some (RString v)).
Proof.
  intros HR. destruct w as [s f se lg R cfg op np]. cbn in HR. subst R.
  unfold get, exist. cbn [REDIS]. split; [done|]. split; [done|].
  unfold set, try_except, bind, redis_call. cbn [REDIS].
  destruct cfg; cbn; (do 5 (split; [done|])); [|done].
  intros _ -> Hexp. unfold client_call. cbn. unfold srv_set.
  destruct (Z.leb_spec exp 0) as [|_]; [lia|]. cbn. split; [done|].
  rewrite peek_put. unfold live. cbn.
  destruct (Qlt_le_dec (now s) (now s + inject_Z exp)) as [|Hle]; [done|].
  assert (inject_Z 0 < inject_Z exp)%Q by (by rewrite <- Zlt_Qlt).
  change (inject_Z 0) with 0%Q in *. lra.
Qed.

Lemma without_client_witness :
  get "k" (with_REDIS None quiet) = (Ret RNone, with_REDIS None quiet)
  ∧ exist "k" (with_REDIS None quiet) = (Ret RNone, with_REDIS None quiet)
  ∧ (set "k" "v" 60 (with_REDIS None quiet)).1 = Ret false
  ∧ logs (set "k" "v" 60 (with_REDIS None quiet)).2
    = ((if config_ok (with_REDIS None quiet) then []
        else [(WARNING, Text "Redis can't be connected.")])
       ++ (WARNING, got_exception "set" "k" "'NoneType' object has no attribute 'set'")
          :: logs (with_REDIS None quiet))%list
  ∧ srv (set "k" "v" 60 (with_REDIS None quiet)).2 = srv (with_REDIS None quiet)
  ∧ sent (set "k" "v" 60 (with_REDIS None quiet)).2 = sent (with_REDIS None quiet)
  ∧ REDIS (set "k" "v" 60 (with_REDIS None quiet)).2
    = (if config_ok (with_REDIS None quiet) then Some (S (opens (with_REDIS None quiet)))
       else None)
  ∧ (config_ok (with_REDIS None quiet) = true → faults (with_REDIS None quiet) = [] →
     (0 < 60)%Z →
     (set "k" "v" 60 (set "k" "v" 60 (with_REDIS None quiet)).2).1 = Ret true
     ∧ peek (srv (set "k" "v" 60 (set "k" "v" 60 (with_REDIS None quiet)).2).2) "k"
       = Some (RString "v")).
Proof. apply (without_client "k" "v" 60 (with_REDIS None quiet)). reflexivity. Defined.

(** X4.  [transaction] writes the value only when the key is free, and returns
    [True] in either case: the answer of the server to SET NX is dropped. *)
Theorem transaction_first_writer k v exp (w : world) client :
  REDIS w = Some client → faults w = [] → (0 < exp)%Z →
  (transaction k v exp w).1 = Ret true
  ∧ peek (srv (transaction k v exp w).2) k = Some (default (RString v) (peek (srv w) k))
  ∧ (is_Some (peek (srv w) k) → srv (transaction k v exp w).2 = srv w).
Proof.
  intros HR Hf Hexp. destruct w as [s f se lg R cfg op np]. cbn in HR, Hf. subst R f.
  unfold transaction, try_except, bind, redis_pipeline, client_call.
  cbn [REDIS faults srv exec fst snd with_srv with_sent].
  unfold srv_set. destruct (Z.leb_spec exp 0) as [|_]; [lia|].
  destruct (peek s k) as [old|] eqn:Hk; cbn; [by rewrite Hk|].
  split; [done|]. split; [|by intros [? [=]]].
  rewrite peek_put. unfold live. cbn.
  destruct (Qlt_le_dec (now s) (now s + inject_Z exp)) as [|Hle]; [done|].
  assert (inject_Z 0 < inject_Z exp)%Q by (by rewrite <- Zlt_Qlt).
  change (inject_Z 0) with 0%Q in *. lra.
Qed.

Lemma transaction_first_writer_witness :
  (transaction "kb" "mine" 3600 (held "kb" "other" 1800)).1 = Ret true
  ∧ peek (srv (transaction "kb" "mine" 3600 (held "kb" "other" 1800)).2) "kb"
    = Some (default (RString "mine") (peek (srv (held "kb" "other" 1800)) "kb"))
  ∧ (is_Some (peek (srv (held "kb" "other" 1800)) "kb") →
     srv (transaction "kb" "mine" 3600 (held "kb" "other" 1800)).2
     = srv (held "kb" "other" 1800)).
Proof.
  apply (transaction_first_writer "kb" "mine" 3600 (held "kb" "other" 1800) 0%nat);
    [reflexivity|reflexivity|lia].
Defined.

(** ** Sets *)

(** X5.  [sadd] and [srem] on a key that is free or holds a set return [True],
    and [smembers] then shows the set with, or without, the member. *)
Theorem sadd_srem_smembers k m (w : world) client :
  REDIS w = Some client → faults w = [] →
  (peek (srv w) k = None ∨ ∃ ms, peek (srv w) k = Some (RSet ms)) →
  (sadd k m w).1 = Ret true
  ∧ (smembers k (sadd k m w).2).1 = Ret (RMembers ({[ m ]} ∪ members k (srv w)))
  ∧ (srem k m w).1 = Ret true
  ∧ (smembers k (srem k m w).2).1 = Ret (RMembers (members k (srv w) ∖ {[ m ]})).
Proof.
  intros HR Hf Hk. destruct w as [s f se lg R cfg op np]. cbn in HR, Hf, Hk. subst R f.
  unfold sadd, srem, smembers, members, try_except, bind, redis_call, client_call.
  cbn [REDIS faults srv exec fst snd with_srv with_sent].
  unfold srv_sadd, srv_srem. destruct Hk as [Hk|[ms Hk]]; rewrite Hk.
  - cbn [REDIS faults srv exec fst snd with_srv with_sent ret].
    unfold srv_smembers. rewrite peek_put, Hk. cbn.
    repeat split; f_equal; f_equal.
    + by rewrite (right_id_L ∅ (∪)).
    + apply set_eq. intros x. rewrite elem_of_difference, elem_of_empty. tauto.
  - cbn [REDIS faults srv exec fst snd with_srv with_sent ret].
    unfold srv_smembers. rewrite peek_store.
    repeat split.
    destruct (bool_decide (ms ∖ {[m]} = ∅)) eqn:He.
    + apply bool_decide_eq_true in He. rewrite peek_forget. cbn. by rewrite He.
    + by rewrite peek_store.
Qed.

Lemma sadd_srem_smembers_witness :
  (sadd "s" "a" quiet).1 = Ret true
  ∧ (smembers "s" (sadd "s" "a" quiet).2).1
    = Ret (RMembers ({[ "a" ]} ∪ members "s" (srv quiet)))
  ∧ (srem "s" "a" quiet).1 = Ret true
  ∧ (smembers "s" (srem "s" "a" quiet).2).1
    = Ret (RMembers (members "s" (srv quiet) ∖ {[ "a" ]})).
Proof.
  apply (sadd_srem_smembers "s" "a" quiet 0%nat); [reflexivity|reflexivity|].
  left. reflexivity.
Defined.

(** ** Errors of the server *)

(** X7.  A set or sorted-set operation on a key that holds a string is refused
    by the server.  The wrapper treats that like a lost connection: one
    warning, one run of [__open__], and the neutral value, so that [zcount]
    answers 0 and [smembers] answers [None] as they would for a broken
    connection; the key keeps its string. *)
Theorem wrong_type_contained k v m sc lo hi n (w : world) client :
  REDIS w = Some client → faults w = [] →
  peek (srv w) k = Some (RString v) →
  ((sadd k m w).1 = Ret false ∧ failed_once "sadd" k WRONGTYPE w (sadd k m w).2)
  ∧ ((srem k m w).1 = Ret false ∧ failed_once "srem" k WRONGTYPE w (srem k m w).2)
  ∧ ((smembers k w).1 = Ret RNone ∧ failed_once "smembers" k WRONGTYPE w (smembers k w).2)
  ∧ ((zadd k m sc w).1 = Ret false ∧ failed_once "zadd" k WRONGTYPE w (zadd k m sc w).2)
  ∧ ((zcount k lo hi w).1 = Ret (RInt 0)
     ∧ failed_once "zcount" k WRONGTYPE w (zcount k lo hi w).2)
  ∧ ((zpopmin k n w).1 = Ret RNone ∧ failed_once "zpopmin" k WRONGTYPE w (zpopmin k n w).2)
  ∧ ((zrangebyscore k lo hi w).1 = Ret RNone
     ∧ failed_once "zrangebyscore" k WRONGTYPE w (zrangebyscore k lo hi w).2).
Proof.
  intros HR Hf Hk. destruct w as [s f se lg R cfg op np]. cbn in HR, Hf, Hk. subst R f.
  unfold sadd, srem, smembers, zadd, zcount, zpopmin, zrangebyscore, failed_once,
    try_except, bind, redis_call, client_call.
  cbn [REDIS faults srv exec fst snd with_srv with_sent].
  unfold srv_sadd, srv_srem, srv_smembers, srv_zadd, srv_zcount, srv_zpopmin,
    srv_zrangebyscore.
  rewrite Hk. destruct cfg; cbn; done.
Qed.

Lemma wrong_type_contained_witness :
  let w := held "kb" "other" 1800 in
  ((sadd "kb" "a" w).1 = Ret false ∧ failed_once "sadd" "kb" WRONGTYPE w (sadd "kb" "a" w).2)
  ∧ ((srem "kb" "a" w).1 = Ret false
     ∧ failed_once "srem" "kb" WRONGTYPE w (srem "kb" "a" w).2)
  ∧ ((smembers "kb" w).1 = Ret RNone
     ∧ failed_once "smembers" "kb" WRONGTYPE w (smembers "kb" w).2)
  ∧ ((zadd "kb" "a" 1 w).1 = Ret false
     ∧ failed_once "zadd" "kb" WRONGTYPE w (zadd "kb" "a" 1 w).2)
  ∧ ((zcount "kb" 0 1 w).1 = Ret (RInt 0)
     ∧ failed_once "zcount" "kb" WRONGTYPE w (zcount "kb" 0 1 w).2)
  ∧ ((zpopmin "kb" 1 w).1 = Ret RNone
     ∧ failed_once "zpopmin" "kb" WRONGTYPE w (zpopmin "kb" 1 w).2)
  ∧ ((zrangebyscore "kb" 0 1 w).1 = Ret RNone
     ∧ failed_once "zrangebyscore" "kb" WRONGTYPE w (zrangebyscore "kb" 0 1 w).2).
Proof.
  apply (wrong_type_contained "kb" "other" "a" 1 0 1 1%nat (held "kb" "other" 1800) 0%nat);
    reflexivity.
Defined.

(** X8.  [health] on a working connection answers [True] whatever was there, and
    leaves the key ["xx"] holding ["yy"] for three seconds; no other key is
    touched. *)
Theorem health_overwrites_xx (w : world) client :
  REDIS w = Some client → faults w = [] →
  (health w).1 = Ret (Some true)
  ∧ peek (srv (health w).2) "xx" = Some (RString "yy")
  ∧ (∀ d, (3 <= d)%Q → peek (tick d (srv (health w).2)) "xx" = None)
  ∧ (∀ k, k ≠ "xx" → keyspace (srv (health w).2) !! k = keyspace (srv w) !! k)
  ∧ sent (health w).2 = (Get "xx" :: SetEx "xx" "yy" 3 false :: Ping :: sent w)%list.
Proof.
  intros HR Hf. destruct w as [s f se lg R cfg op np]. cbn in HR, Hf. subst R f.
  unfold health, bind, redis_call, client_call.
  cbn [REDIS faults srv exec fst snd with_srv with_sent].
  unfold srv_set. cbn [Z.leb Z.compare andb fst snd].
  cbn [REDIS faults srv exec fst snd with_srv with_sent].
  unfold srv_get. rewrite peek_put. unfold live. cbn [sl_expire].
  destruct (Qlt_le_dec (now s) (now s + inject_Z 3)) as [_|Hle];
    [|change (inject_Z 3) with 3%Q in Hle; lra].
  cbn. repeat split.
  - rewrite peek_put. unfold live. cbn.
    destruct (Qlt_le_dec (now s) (now s + inject_Z 3)) as [|Hle]; [done|].
    change (inject_Z 3) with 3%Q in Hle; lra.
  - intros d Hd. rewrite peek_tick. cbn. rewrite lookup_insert_eq. unfold live. cbn.
    destruct (Qlt_le_dec (Qred (now s + d)) (now s + inject_Z 3)) as [Hlt|]; [|done].
    rewrite Qred_correct in Hlt. change (inject_Z 3) with 3%Q in Hlt. lra.
  - intros k Hk. by rewrite lookup_insert_ne.
Qed.

Lemma health_overwrites_xx_witness :
  (health quiet).1 = Ret (Some true)
  ∧ peek (srv (health quiet).2) "xx" = Some (RString "yy")
  ∧ (∀ d, (3 <= d)%Q → peek (tick d (srv (health quiet).2)) "xx" = None)
  ∧ (∀ k, k ≠ "xx" → keyspace (srv (health quiet).2) !! k = keyspace (srv quiet) !! k)
  ∧ sent (health quiet).2
    = (Get "xx" :: SetEx "xx" "yy" 3 false :: Ping :: sent quiet)%list.
Proof. apply (health_overwrites_xx quiet 0%nat); reflexivity. Defined.

(** ** Queues *)

Lemma find_group_summary g gs :
  List.find (fun i => String.eqb (gi_name i) g) (map group_summary gs)
  = group_summary <$> List.find (fun x => String.eqb (g_name x) g) gs.
Proof.
  induction gs as [|x gs IH]; [done|]. cbn. by destruct (String.eqb (g_name x) g).
Qed.

Lemma id_eqb_refl i : id_eqb i i = true.
Proof. unfold id_eqb. by rewrite !N.eqb_refl. Qed.

(** Once the line of an entry is taken off the pending list, a consumer that
    had no other line has none. *)
Lemma pending_of_acked c i l :
  Forall (fun p => p_consumer p ≠ c) l →
  List.filter
    (fun p => String.eqb (p_consumer p) c && (0 <=? (p_id p).1)%N
              && ((p_id p).1 <=? scan_bound)%N)
    (List.filter (fun p => negb (id_eqb (p_id p) i)) (pel_insert (mkPending i c) l))
  = [].
Proof.
  assert (Hnone : ∀ l', Forall (fun p => p_consumer p ≠ c) l' →
            List.filter
              (fun p => String.eqb (p_consumer p) c && (0 <=? (p_id p).1)%N
                        && ((p_id p).1 <=? scan_bound)%N)
              (List.filter (fun p => negb (id_eqb (p_id p) i)) l') = []).
  { induction 1 as [|p l' Hp _ IH]; [done|]. cbn.
    destruct (negb (id_eqb (p_id p) i)); [|done]. cbn.
    apply String.eqb_neq in Hp. by rewrite Hp. }
  induction 1 as [|p l' Hp Hl' IH]; cbn.
  - by rewrite id_eqb_refl.
  - destruct (id_ltb i (p_id p)); [|destruct (id_eqb i (p_id p))].
    + cbn [List.filter p_id]. rewrite id_eqb_refl. cbn [negb].
      apply (Hnone (p :: l')). by constructor.
    + cbn [List.filter p_id]. rewrite id_eqb_refl. cbn [negb]. by apply Hnone.
    + cbn [List.filter]. destruct (negb (id_eqb (p_id p) i)); [|done].
      cbn [List.filter]. apply String.eqb_neq in Hp. by rewrite Hp.
Qed.

Section queue_properties.

Context {pyobj : Type} (json_dumps : bool → pyobj → string)
  (json_loads : string → result pyobj).

(** X9.  [queue_product] on a working connection sends one XADD and returns
    [True]; the stream has one more entry, the JSON text of the message under
    the field ["message"], with an id above every id it had. *)
Theorem queue_product_appends q M (w : world) client st :
  REDIS w = Some client → faults w = [] →
  queue_of q (srv w) = Some st →
  Forall (fun e => id_leb (e_id e) (s_last_id st) = true) (s_entries st) →
  ∃ i,
    (queue_product pyobj json_dumps q M w).1 = Ret true
    ∧ peek (srv (queue_product pyobj json_dumps q M w).2) q
      = Some (RStream (mkStream
                         (s_entries st ++ [mkEntry i [("message", json_dumps true M)]])
                         i (s_groups st)))
    ∧ Forall (fun e => id_ltb (e_id e) i = true) (s_entries st)
    ∧ sent (queue_product pyobj json_dumps q M w).2
      = XAdd q [("message", json_dumps true M)] :: sent w.
Proof.
  intros HR Hf Hq Hids. exists (next_id (ms_now (srv w)) (s_last_id st)).
  rewrite (queue_product_run json_dumps q M w client st HR Hf Hq). cbn [fst snd].
  split; [done|]. split; [apply peek_store|]. split; [|done].
  eapply Forall_impl; [exact Hids|]. intros e He.
  apply (id_leb_ltb_trans _ _ _ He (next_id_above _ _)).
Qed.

(** X10.  On a stream key that does not exist the three readers of a queue give
    up at the first command.  [queue_consumer] and [get_unacked_for] do so in
    silence, creating no group and waiting for nothing; [queue_info] logs a
    warning. *)
Theorem missing_stream q g c from (w : world) client :
  REDIS w = Some client → faults w = [] →
  peek (srv w) q = None →
  queue_consumer pyobj json_loads q g c from w = (Ret None, with_sent (XInfoGroups q) w)
  ∧ get_unacked_for pyobj json_loads c q g w = (Ret None, with_sent (XInfoGroups q) w)
  ∧ queue_info q g w
    = (Ret None,
       with_log (WARNING, got_exception "queue_info" q "no such key")
         (with_sent (XInfoGroups q) w)).
Proof.
  intros HR Hf Hk. destruct w as [s f se lg R cfg op np]. cbn in HR, Hf, Hk. subst R f.
  unfold queue_consumer, get_unacked_for, queue_info, try_except, bind, redis_call,
    client_call.
  cbn [REDIS faults srv exec fst snd with_srv with_sent].
  unfold srv_xinfo_groups. rewrite Hk. done.
Qed.

(** X11.  [queue_info] on a stream that exists: the summary of the group of that
    name, [None] when there is none, and nothing logged. *)
Theorem queue_info_finds_group q g (w : world) client st :
  REDIS w = Some client → faults w = [] →
  peek (srv w) q = Some (RStream st) →
  queue_info q g w
  = (Ret ((fun x => mkGroupInfo (g_name x) (length (g_pel x)) (g_last_delivered x))
          <$> find_group g st),
     with_sent (XInfoGroups q) w).
Proof.
  intros HR Hf Hk. destruct w as [s f se lg R cfg op np]. cbn in HR, Hf, Hk. subst R f.
  unfold queue_info, try_except, bind, redis_call, client_call.
  cbn [REDIS faults srv exec fst snd with_srv with_sent].
  unfold srv_xinfo_groups. rewrite Hk. cbn [fst snd].
  rewrite find_group_summary. unfold find_group, ret.
  by destruct (List.find _ (s_groups st)).
Qed.

(** X12.  [get_unacked_for] answers with the first line of the consumer on the
    pending list, however many lines follow, and takes nothing off the list:
    asked again, it answers the same. *)
Theorem get_unacked_for_oldest c q g (w : world) client st x p rest e m :
  REDIS w = Some client → faults w = [] →
  peek (srv w) q = Some (RStream st) →
  find_group g st = Some x →
  pending_of c x = p :: rest →
  head (from_id (p_id p) st) = Some e →
  decodes json_loads e m →
  let run := get_unacked_for pyobj json_loads c q g w in
  run.1 = Ret (Some (mkPayload (Some client) q g (p_id p) m))
  ∧ srv run.2 = srv w
  ∧ (get_unacked_for pyobj json_loads c q g run.2).1 = run.1.
Proof.
  intros HR Hf Hk Hfind Hpend He Hdec. cbv zeta.
  assert (Hall : ∀ p', head (pending_of c x) = Some p' →
            ∃ e', head (from_id (p_id p') st) = Some e' ∧ decodes json_loads e' m).
  { rewrite Hpend. intros p' [= <-]. by exists e. }
  destruct (get_unacked_for_run json_loads c q g w client st x m HR Hf Hk Hfind Hall)
    as (H1 & H2 & _ & H3 & _ & _ & H4).
  rewrite Hpend in H1. cbn in H1. split; [done|]. split; [done|].
  destruct (get_unacked_for_run json_loads c q g _ client st x m
              (eq_trans H3 HR) H4 (eq_trans (f_equal (fun s => peek s q) H2) Hk) Hfind Hall)
    as (H1' & _).
  rewrite Hpend in H1'. cbn in H1'. by rewrite H1, H1'.
Qed.

(** [get_unacked_for] for a consumer with no pending line. *)
Lemma get_unacked_for_none c q g (w : world) client st x :
  REDIS w = Some client → faults w = [] →
  peek (srv w) q = Some (RStream st) →
  find_group g st = Some x → pending_of c x = [] →
  (get_unacked_for pyobj json_loads c q g w).1 = Ret None.
Proof.
  intros HR Hf Hk Hfind Hnone.
  destruct w as [s f se lg R cfg op np]. cbn in HR, Hf, Hk. subst R f.
  unfold get_unacked_for, try_except, bind, redis_call, client_call.
  cbn [REDIS faults srv exec fst snd with_srv with_sent].
  unfold srv_xinfo_groups. rewrite Hk. cbn [fst snd].
  rewrite has_group_summary. fold (find_group g st). rewrite Hfind. cbn [negb].
  cbn [REDIS faults srv exec fst snd with_srv with_sent].
  unfold srv_xpending_range. rewrite Hk, Hfind. cbn [fst snd].
  change (List.filter _ (g_pel x)) with (pending_of c x). by rewrite Hnone.
Qed.

(** X13.  [get_unacked_for] has nothing to return when the group does not exist
    or the consumer has no pending line: it returns [None] without asking
    for any entry, and logs nothing. *)
Theorem get_unacked_for_nothing c q g (w : world) client st :
  REDIS w = Some client → faults w = [] →
  peek (srv w) q = Some (RStream st) →
  match find_group g st with
  | Some x => pending_of c x = []
  | None => True
  end →
  let run := get_unacked_for pyobj json_loads c q g w in
  run.1 = Ret None
  ∧ srv run.2 = srv w ∧ logs run.2 = logs w
  ∧ sent run.2
    = ((if find_group g st is Some _ then [XPendingRange q g 0 scan_bound 1 c] else [])
       ++ XInfoGroups q :: sent w)%list.
Proof.
  intros HR Hf Hk Hnone. cbv zeta.
  destruct w as [s f se lg R cfg op np]. cbn in HR, Hf, Hk. subst R f.
  unfold get_unacked_for, try_except, bind, redis_call, client_call.
  cbn [REDIS faults srv exec fst snd with_srv with_sent].
  unfold srv_xinfo_groups. rewrite Hk. cbn [fst snd].
  rewrite has_group_summary. fold (find_group g st).
  destruct (find_group g st) as [x|] eqn:Hfind; cbn [negb]; [|done].
  cbn [REDIS faults srv exec fst snd with_srv with_sent].
  unfold srv_xpending_range. rewrite Hk, Hfind. cbn [fst snd].
  change (List.filter _ (g_pel x)) with (pending_of c x). rewrite Hnone. done.
Qed.

(** The state after a message was produced to a drained queue and consumed
    by [c]. *)
Lemma produce_then_consume q g c M (w : world) client :
  REDIS w = Some client → faults w = [] →
  json_loads (json_dumps true M) = Val M →
  drained q g c (srv w) →
  ∃ i st2 x0 w1 w2,
    queue_product pyobj json_dumps q M w = (Ret true, w1)
    ∧ queue_consumer pyobj json_loads q g c NewEntries w1
      = (Ret (Some (mkPayload (Some client) q g i M)), w2)
    ∧ REDIS w2 = Some client ∧ faults w2 = []
    ∧ peek (srv w2) q = Some (RStream st2)
    ∧ find_group g st2
      = Some (mkGroup g i (pel_insert (mkPending i c) (g_pel x0)))
    ∧ Forall (fun p => p_consumer p ≠ c) (g_pel x0)
    ∧ (i.1 ≤ scan_bound)%N
    ∧ from_id i st2 = [mkEntry i [("message", json_dumps true M)]].
Proof.
  intros HR Hf Hjson (Hnow & Hdr).
  set (fields := [("message", json_dumps true M)]).
  assert (∃ st0, queue_of q (srv w) = Some st0
                 ∧ ((s_last_id st0).1 ≤ scan_bound)%N
                 ∧ Forall (fun e => id_leb (e_id e) (s_last_id st0) = true) (s_entries st0)
                 ∧ id_leb (g_last_delivered (group_at_origin g st0)) (s_last_id st0) = true
                 ∧ unread (group_at_origin g st0) st0 = []
                 ∧ Forall (fun p => p_consumer p ≠ c) (g_pel (group_at_origin g st0))
                 ∧ g_name (group_at_origin g st0) = g)
    as (st0 & Hq & Hlast & Hids & Hdeliv & Hread & Hpel & Hname).
  { unfold queue_of. destruct (peek (srv w) q) as [[| | |st]|]; try done.
    - exists st. destruct Hdr as (? & ? & Hg). split; [done|]. split; [done|]. split; [done|].
      unfold group_at_origin. destruct (find_group g st) as [x|] eqn:Hfind; cbn.
      + destruct Hg as (? & ? & ?). repeat split; try done. by apply find_group_name in Hfind.
      + unfold unread. rewrite Hg. repeat split; [|constructor]. apply id_leb_le. cbn. lia.
    - exists empty_stream. repeat split; try done; constructor. }
  set (i := next_id (ms_now (srv w)) (s_last_id st0)).
  set (st1 := appended (srv w) fields st0).
  set (e := mkEntry i fields).
  pose proof (queue_product_run json_dumps q M w client st0 HR Hf Hq) as Hprod.
  fold fields st1 in Hprod.
  set (w1 := with_srv (store q (RStream st1) (srv w)) (with_sent (XAdd q fields) w)) in *.
  assert (Hx1 : group_at_origin g st1 = group_at_origin g st0) by done.
  assert (Hun : unread (group_at_origin g st1) st1 = [e]).
  { rewrite Hx1. unfold st1. rewrite unread_appended by done. by rewrite Hread. }
  assert (Hdece : decodes json_loads e M) by (by eexists).
  destruct (queue_consumer_run json_loads q g c w1 client st1 M) as
    (Hc1 & Hc2 & (st2 & _ & Hpeek2 & Hent2 & Hfind2) & _ & HR2 & Hf2 & _).
  { done. } { done. } { apply peek_store. }
  { rewrite Hun. by intros ? [= <-]. }
  rewrite Hun in Hc1, Hpeek2, Hfind2. cbn [head fmap option_fmap option_map] in *.
  set (run2 := queue_consumer pyobj json_loads q g c NewEntries w1) in *.
  specialize (Hpeek2 (mk_is_Some _ _ eq_refl)).
  exists i, st2, (group_at_origin g st0), w1, run2.2.
  split; [done|]. split; [by apply run_eta|]. split; [by rewrite HR2|]. split; [done|].
  split; [done|]. split.
  { rewrite Hfind2, Hx1. unfold deliver. cbn. by rewrite Hname. }
  split; [done|]. split; [by apply next_id_bound|].
  unfold from_id. rewrite Hent2. by apply from_id_appended.
Qed.

(** X14.  A message that was consumed and acknowledged is not handed out by
    [get_unacked_for]: [ack] sends XACK for the entry and returns [True], and
    the consumer has no pending line left. *)
Theorem acked_message_gone q g c M (w : world) client :
  REDIS w = Some client → faults w = [] →
  json_loads (json_dumps true M) = Val M →
  drained q g c (srv w) →
  ∃ p w1 w2,
    queue_product pyobj json_dumps q M w = (Ret true, w1)
    ∧ queue_consumer pyobj json_loads q g c NewEntries w1 = (Ret (Some p), w2)
    ∧ get_message p = M
    ∧ (ack p w2).1 = Ret true
    ∧ sent (ack p w2).2 = XAck q g (__msg_id p) :: sent w2
    ∧ (get_unacked_for pyobj json_loads c q g (ack p w2).2).1 = Ret None.
Proof.
  intros HR Hf Hjson Hdr.
  destruct (produce_then_consume q g c M w client HR Hf Hjson Hdr) as
    (i & st2 & x0 & w1 & w2 & Hp & Hc & HR2 & Hf2 & Hk2 & Hfind2 & Hpel & Hi & _).
  exists (mkPayload (Some client) q g i M), w1, w2.
  split; [done|]. split; [done|]. split; [done|].
  destruct w2 as [s f se lg R cfg op np]. cbn in HR2, Hf2, Hk2. subst R f.
  unfold ack, try_except, bind, client_call.
  cbn [__consumer __queue_name __group_name __msg_id
       REDIS faults srv exec fst snd with_srv with_sent].
  unfold srv_xack. rewrite Hk2, Hfind2.
  cbn [g_name g_last_delivered g_pel fst snd ret].
  split; [done|]. split; [done|].
  match goal with |- context [store q (RStream (set_group ?x st2)) s] => set (x3 := x) end.
  match goal with |- (get_unacked_for _ _ _ _ _ ?w).1 = _ => set (w3 := w) end.
  apply (get_unacked_for_none c q g w3 client (set_group x3 st2) x3);
    [done|done|apply peek_store|by apply (find_group_set_group g st2 _ x3 Hfind2)|].
  unfold pending_of, x3. cbn [g_pel]. by apply pending_of_acked.
Qed.

End queue_properties.

Lemma queue_product_appends_witness :
  ∃ i,
    (queue_product string (fun _ s => s) "q" "hello" quiet).1 = Ret true
    ∧ peek (srv (queue_product string (fun _ s => s) "q" "hello" quiet).2) "q"
      = Some (RStream (mkStream
                         (s_entries empty_stream ++ [mkEntry i [("message", "hello")]])
                         i (s_groups empty_stream)))
    ∧ Forall (fun e => id_ltb (e_id e) i = true) (s_entries empty_stream)
    ∧ sent (queue_product string (fun _ s => s) "q" "hello" quiet).2
      = XAdd "q" [("message", "hello")] :: sent quiet.
Proof.
  apply (queue_product_appends (fun _ s => s) "q" "hello" quiet 0%nat empty_stream);
    [reflexivity|reflexivity|reflexivity|constructor].
Defined.

Lemma missing_stream_witness :
  queue_consumer string (fun s => Val s) "q" "g" "c" NewEntries quiet
  = (Ret None, with_sent (XInfoGroups "q") quiet)
  ∧ get_unacked_for string (fun s => Val s) "c" "q" "g" quiet
    = (Ret None, with_sent (XInfoGroups "q") quiet)
  ∧ queue_info "q" "g" quiet
    = (Ret None,
       with_log (WARNING, got_exception "queue_info" "q" "no such key")
         (with_sent (XInfoGroups "q") quiet)).
Proof.
  apply (missing_stream (fun s => Val s) "q" "g" "c" NewEntries quiet 0%nat); reflexivity.
Defined.

Lemma queue_info_finds_group_witness :
  queue_info "q" "g" backlog
  = (Ret ((fun x => mkGroupInfo (g_name x) (length (g_pel x)) (g_last_delivered x))
          <$> find_group "g" backlog_stream),
     with_sent (XInfoGroups "q") backlog).
Proof.
  apply (queue_info_finds_group "q" "g" backlog 0%nat backlog_stream); reflexivity.
Defined.

Lemma get_unacked_for_oldest_witness :
  let run := get_unacked_for string (fun s => Val s) "c" "q" "g" backlog in
  run.1 = Ret (Some (mkPayload (Some 0%nat) "q" "g" (0%N, 1%N) "first"))
  ∧ srv run.2 = srv backlog
  ∧ (get_unacked_for string (fun s => Val s) "c" "q" "g" run.2).1 = run.1.
Proof.
  apply (get_unacked_for_oldest (fun s => Val s) "c" "q" "g" backlog 0%nat backlog_stream
           (mkGroup "g" (0%N, 2%N) [mkPending (0%N, 1%N) "c"; mkPending (0%N, 2%N) "c"])
           (mkPending (0%N, 1%N) "c") [mkPending (0%N, 2%N) "c"]
           (mkEntry (0%N, 1%N) [("message", "first")]) "first");
    try reflexivity.
  by eexists.
Defined.

Lemma get_unacked_for_nothing_witness :
  let run := get_unacked_for string (fun s => Val s) "d" "q" "g" backlog in
  run.1 = Ret None
  ∧ srv run.2 = srv backlog ∧ logs run.2 = logs backlog
  ∧ sent run.2
    = ((if find_group "g" backlog_stream is Some _
        then [XPendingRange "q" "g" 0 scan_bound 1 "d"] else [])
       ++ XInfoGroups "q" :: sent backlog)%list.
Proof.
  apply (get_unacked_for_nothing (fun s => Val s) "d" "q" "g" backlog 0%nat backlog_stream);
    reflexivity.
Defined.

Lemma acked_message_gone_witness :
  ∃ p w1 w2,
    queue_product string (fun _ s => s) "q" "hello" quiet = (Ret true, w1)
    ∧ queue_consumer string (fun s => Val s) "q" "g" "c" NewEntries w1 = (Ret (Some p), w2)
    ∧ get_message p = "hello"
    ∧ (ack p w2).1 = Ret true
    ∧ sent (ack p w2).2 = XAck "q" "g" (__msg_id p) :: sent w2
    ∧ (get_unacked_for string (fun s => Val s) "c" "q" "g" (ack p w2).2).1 = Ret None.
Proof.
  apply (acked_message_gone (fun _ s => s) (fun s => Val s) "q" "g" "c" "hello" quiet 0%nat).
  - reflexivity.
  - reflexivity.
  - reflexivity.
  - split; [vm_compute; discriminate|exact I].
Defined.

(** ** The lock, held and free *)

(** A turn of the loop on a key that is taken: the state of the server
    after it is the state before, a sleep later. *)
Lemma acquire_loop_sleeps fuel end_time attempt self w v :
  lock_ready self w → (0 < ttl self)%Z → (now (srv w) < end_time)%Q →
  peek (srv w) (lock_key self) = Some v →
  ∃ w', acquire_loop (S fuel) end_time attempt (self, w)
        = acquire_loop fuel end_time (S attempt) (self, w')
    ∧ lock_ready self w'
    ∧ srv w' = tick (pymax (1 # 10) ((end_time - now (srv w)) / 10)) (srv w).
Proof.
  intros Hready Httl Hlt Hp. pose proof Hready as ([c Hc] & Hf & Hk).
  assert ((ttl self <=? 0)%Z = false) as Hl by (by apply Z.leb_gt).
  destruct (peek_string _ _ _ Hready Hp) as [sv ->].
  destruct (srv_ttl_same (lock_key self) (srv w)) as [z Hz].
  eexists. split.
  - cbn [acquire_loop]. unfold bind at 1. cbn [self_ fst snd].
    unfold bind at 1. unfold io at 1, time_time at 1. cbn [fst snd].
    destruct (Qlt_le_dec (now (srv w)) end_time) as [_|Hge]; [|lra].
    unfold bind at 1. unfold io at 1. cbn [fst snd].
    rewrite (redis_call_ok _ _ c) by done. cbn [exec]. unfold srv_set.
    rewrite Hl, Hp. cbn [andb fst snd truthy].
    unfold bind at 1. unfold io at 1. cbn [fst snd].
    rewrite (redis_call_ok _ _ c) by done. cbn [exec with_srv with_sent srv].
    unfold srv_get. rewrite Hp. cbn [fst snd].
    unfold bind at 1. unfold io at 1. cbn [fst snd].
    rewrite (redis_call_ok _ _ c) by done. cbn [exec with_srv with_sent srv].
    rewrite Hz. cbn [fst snd].
    unfold bind at 1. unfold io at 1, logging at 1. cbn [fst snd].
    unfold bind at 1. unfold io at 1, time_time at 1. cbn [fst snd].
    unfold bind at 1. unfold io at 1, time_sleep at 1. cbn [fst snd].
    reflexivity.
  - cbn. split; [|done]. split; [eauto|]. split; [done|]. exact Hk.
Qed.

(** A turn on a free key: the record is written with the token and the
    time to live. *)
Lemma acquire_loop_writes fuel end_time attempt self w :
  lock_ready self w → (0 < ttl self)%Z → (now (srv w) < end_time)%Q →
  peek (srv w) (lock_key self) = None →
  acquire_loop (S fuel) end_time attempt (self, w)
  = (Ret true,
     (mkLock (lock_key self) (lock_value self) (ttl self) (acquire_timeout self) true,
      with_log (DEBUG, LockAcquired (lock_key self) (S attempt))
        (with_srv (put (lock_key self) (RString (lock_value self))
                     (Some (now (srv w) + inject_Z (ttl self))%Q) (srv w))
           (with_sent (SetEx (lock_key self) (lock_value self) (ttl self) true) w)))).
Proof.
  intros Hready Httl Hlt Hp. pose proof Hready as ([c Hc] & Hf & Hk).
  assert ((ttl self <=? 0)%Z = false) as Hl by (by apply Z.leb_gt).
  cbn [acquire_loop]. unfold bind at 1. cbn [self_ fst snd].
  unfold bind at 1. unfold io at 1, time_time at 1. cbn [fst snd].
  destruct (Qlt_le_dec (now (srv w)) end_time) as [_|Hge]; [|lra].
  unfold bind at 1. unfold io at 1. cbn [fst snd].
  rewrite (redis_call_ok _ _ c) by done. cbn [exec]. unfold srv_set.
  rewrite Hl, Hp. cbn. reflexivity.
Qed.

Lemma acquire_lock_writes fuel self w :
  lock_ready self w → (0 < ttl self)%Z → (0 < acquire_timeout self)%Q →
  peek (srv w) (lock_key self) = None →
  acquire_lock (S fuel) (self, w)
  = (Ret true,
     (mkLock (lock_key self) (lock_value self) (ttl self) (acquire_timeout self) true,
      with_log (DEBUG, LockAcquired (lock_key self) 1)
        (with_srv (put (lock_key self) (RString (lock_value self))
                     (Some (now (srv w) + inject_Z (ttl self))%Q) (srv w))
           (with_sent (SetEx (lock_key self) (lock_value self) (ttl self) true) w)))).
Proof.
  intros Hready Httl Htimeout Hfree.
  unfold acquire_lock. cbn [bind self_ io time_time fst snd].
  apply acquire_loop_writes; [done|done|lra|done].
Qed.

Lemma put_live k v (ex : Z) s :
  (0 < ex)%Z → peek (put k v (Some (now s + inject_Z ex)%Q) s) k = Some v.
Proof.
  intros Hex. rewrite peek_put. unfold live. cbn.
  destruct (Qlt_le_dec (now s) (now s + inject_Z ex)) as [|Hle]; [done|].
  assert (inject_Z 0 < inject_Z ex)%Q by (by rewrite <- Zlt_Qlt).
  change (inject_Z 0) with 0%Q in *. lra.
Qed.

Lemma peek_held k v e s :
  keyspace s !! k = Some (mkSlot v (Some e)) → (now s < e)%Q → peek s k = Some v.
Proof.
  intros Hk Hlt. unfold peek. rewrite Hk. unfold live. cbn.
  destruct (Qlt_le_dec (now s) e); [done|lra].
Qed.

Lemma peek_expired k v e s :
  keyspace s !! k = Some (mkSlot v (Some e)) → (e <= now s)%Q → peek s k = None.
Proof.
  intros Hk Hle. unfold peek. rewrite Hk. unfold live. cbn.
  destruct (Qlt_le_dec (now s) e); [lra|done].
Qed.

(** The loop against a record that outlives the deadline. *)
Lemma acquire_loop_held self end_time v e (k : nat) :
  (0 < ttl self)%Z → (end_time + (1 # 10) <= e)%Q →
  ∀ fuel attempt w,
    lock_ready self w → (S k ≤ fuel)%nat →
    (10 * (end_time - now (srv w)) <= inject_Z (Z.of_nat k))%Q →
    keyspace (srv w) !! lock_key self = Some (mkSlot (RString v) (Some e)) →
    (now (srv w) < e)%Q →
    ∃ w', acquire_loop fuel end_time attempt (self, w) = (Ret false, (self, w'))
          ∧ keyspace (srv w') = keyspace (srv w) ∧ (now (srv w') < e)%Q
          ∧ (end_time <= now (srv w'))%Q.
Proof.
  intros Httl He. induction k as [|k IH]; intros fuel attempt w Hready Hfuel Hbudget Hks Hnow.
  - destruct fuel as [|fuel]; [lia|].
    change (inject_Z (Z.of_nat 0)) with 0%Q in Hbudget.
    destruct (acquire_loop_gives_up fuel end_time attempt self w Hready)
      as (w' & -> & Hs & _); [lra|].
    exists w'. rewrite Hs. repeat split; [done|lra].
  - destruct fuel as [|fuel]; [lia|].
    destruct (Qlt_le_dec (now (srv w)) end_time) as [Hlt|Hge].
    2: { destruct (acquire_loop_gives_up fuel end_time attempt self w Hready Hge)
           as (w' & -> & Hs & _).
         exists w'. rewrite Hs. by repeat split. }
    pose proof (peek_held _ _ _ _ Hks Hnow) as Hp.
    destruct (acquire_loop_sleeps fuel end_time attempt self w _ Hready Httl Hlt Hp)
      as (w' & -> & Hready' & Hsrv).
    pose proof (pymax_tenth ((end_time - now (srv w)) / 10)) as Htenth.
    pose proof (pymax_overshoot _ _ Hlt) as Hover.
    assert (Hnow' : (now (srv w') == now (srv w)
                       + pymax (1 # 10) ((end_time - now (srv w)) / 10))%Q)
      by (rewrite Hsrv; apply tick_now).
    destruct (IH fuel (S attempt) w' Hready') as (w'' & Hrun & Hks' & Hlt' & Hend).
    { lia. }
    { rewrite Nat2Z.inj_succ in Hbudget. unfold Z.succ in Hbudget.
      rewrite inject_Z_plus in Hbudget. change (inject_Z 1) with 1%Q in Hbudget.
      rewrite Hnow'. lra. }
    { by rewrite Hsrv. }
    { rewrite Hnow'. lra. }
    exists w''. split; [done|]. split; [by rewrite Hks', Hsrv|]. done.
Qed.

(** X15.  While the record of a lock stays alive past the deadline of the caller
    (by the tenth of a second that the last sleep may add), [acquire_lock]
    returns [False], whoever wrote the record, the caller's own token
    included: the lock is not reentrant.  The record is left as it was. *)
Theorem held_lock_excludes (self : RedisDistributedLock) (w : world) (fuel : nat) v e :
  lock_ready self w → (0 < ttl self)%Z → (0 <= acquire_timeout self)%Q →
  (attempts_bound (acquire_timeout self) ≤ fuel)%nat →
  keyspace (srv w) !! lock_key self = Some (mkSlot (RString v) (Some e)) →
  (now (srv w) + acquire_timeout self + (1 # 10) <= e)%Q →
  ∃ w', acquire_lock fuel (self, w) = (Ret false, (self, w'))
        ∧ keyspace (srv w') = keyspace (srv w)
        ∧ peek (srv w') (lock_key self) = Some (RString v)
        ∧ (now (srv w) + acquire_timeout self <= now (srv w'))%Q.
Proof.
  intros Hready Httl Htimeout Hfuel Hks He.
  unfold acquire_lock. cbn [bind self_ io time_time fst snd].
  destruct (acquire_loop_held self (now (srv w) + acquire_timeout self) v e
              (Z.to_nat (Qceiling (10 * acquire_timeout self))) Httl He fuel 0%nat w
              Hready Hfuel) as (w' & Hrun & Hks' & Hlt & Hend).
  - pose proof (Qle_ceiling (10 * acquire_timeout self)) as Hc.
    assert (inject_Z (Qceiling (10 * acquire_timeout self))
            <= inject_Z (Z.of_nat (Z.to_nat (Qceiling (10 * acquire_timeout self)))))%Q as Hz.
    { rewrite <- Zle_Qle. lia. }
    lra.
  - done.
  - lra.
  - exists w'. split; [done|]. split; [done|]. split; [|done].
    apply (peek_held _ _ e); [by rewrite Hks'|done].
Qed.

Lemma held_lock_excludes_witness :
  ∃ w', acquire_lock 101 (holder "me" "kb", held "kb" "me" 1800)
        = (Ret false, (holder "me" "kb", w'))
        ∧ keyspace (srv w') = keyspace (srv (held "kb" "me" 1800))
        ∧ peek (srv w') (lock_key (holder "me" "kb")) = Some (RString "me")
        ∧ (now (srv (held "kb" "me" 1800)) + acquire_timeout (holder "me" "kb")
           <= now (srv w'))%Q.
Proof.
  apply (held_lock_excludes (holder "me" "kb") (held "kb" "me" 1800) 101 "me" 1800).
  - split; [by eexists|]. split; [reflexivity|].
    intros sl. vm_compute. intros [= <-]. by eexists.
  - reflexivity.
  - vm_compute. discriminate.
  - vm_compute. lia.
  - reflexivity.
  - vm_compute. discriminate.
Defined.

(** [release_lock] by the holder of the record, on a working connection. *)
Lemma release_lock_own self w c :
  _lock_acquired self = true → REDIS w = Some c → faults w = [] →
  peek (srv w) (lock_key self) = Some (RString (lock_value self)) →
  ∃ w', release_lock (self, w) = (Ret tt, (cleared self, w'))
        ∧ srv w' = forget (lock_key self) (srv w)
        ∧ REDIS w' = Some c ∧ faults w' = []
        ∧ sent w' = Eval UnlockScript (lock_key self) (lock_value self) :: sent w.
Proof.
  intros Hacq Hc Hf Hp.
  unfold release_lock. cbn [bind self_ fst snd]. rewrite Hacq. cbn [negb].
  unfold try_finally, try_except, bind, io, logging. cbn [fst snd].
  rewrite (redis_call_ok _ _ c) by done. cbn [exec with_log srv].
  rewrite srv_eval_match by done. cbn. eexists. split; [reflexivity|]. done.
Qed.

(** [release_lock] against a record that is not the caller's. *)
Lemma release_lock_foreign self w :
  _lock_acquired self = true →
  peek (srv w) (lock_key self) ≠ Some (RString (lock_value self)) →
  srv (release_lock (self, w)).2.2 = srv w.
Proof.
  intros Hacq Hne.
  destruct (release_lock_shape self w Hacq) as (w' & -> & _ & _ & _ & Hcases).
  cbn. destruct Hcases as [[_ ?]|[[_ [?|[? _]]]|[_ ?]]]; done.
Qed.

(** X16.  On a working connection a free lock is taken at the first attempt,
    without a sleep, for [ttl] seconds; [release_lock] then deletes the
    record with one EVAL, and the key is free again. *)
Theorem acquire_then_release (self : RedisDistributedLock) (w : world) (fuel : nat) :
  lock_ready self w → (0 < ttl self)%Z → (0 < acquire_timeout self)%Q →
  peek (srv w) (lock_key self) = None →
  let taken := acquire_lock (S fuel) (self, w) in
  let given := release_lock taken.2 in
  taken.1 = Ret true
  ∧ _lock_acquired taken.2.1 = true
  ∧ keyspace (srv taken.2.2) !! lock_key self
    = Some (mkSlot (RString (lock_value self))
              (Some (now (srv w) + inject_Z (ttl self))%Q))
  ∧ naps taken.2.2 = naps w
  ∧ given.1 = Ret tt
  ∧ _lock_acquired given.2.1 = false
  ∧ keyspace (srv given.2.2) = delete (lock_key self) (keyspace (srv w))
  ∧ sent given.2.2
    = (Eval UnlockScript (lock_key self) (lock_value self)
       :: SetEx (lock_key self) (lock_value self) (ttl self) true :: sent w)%list.
Proof.
  intros Hready Httl Htimeout Hfree. cbv zeta.
  pose proof Hready as ([c Hc] & Hf & _).
  rewrite (acquire_lock_writes fuel self w) by done.
  cbn [fst snd _lock_acquired srv with_log with_srv with_sent naps].
  split; [done|]. split; [done|]. split; [by cbn; rewrite lookup_insert_eq|].
  split; [done|].
  match goal with |- context [release_lock (?s, ?w1)] =>
    destruct (release_lock_own s w1 c) as (w2 & -> & Hsrv & _ & _ & Hsent) end.
  - done.
  - done.
  - done.
  - cbn. by apply put_live.
  - cbn [fst snd cleared _lock_acquired]. rewrite Hsrv, Hsent.
    split; [done|]. split; [done|]. split; [|done].
    cbn. by rewrite delete_insert_eq.
Qed.

Lemma acquire_then_release_witness :
  let self := newcomer "me" "kb" in
  let taken := acquire_lock 1 (self, quiet) in
  let given := release_lock taken.2 in
  taken.1 = Ret true
  ∧ _lock_acquired taken.2.1 = true
  ∧ keyspace (srv taken.2.2) !! lock_key self
    = Some (mkSlot (RString (lock_value self))
              (Some (now (srv quiet) + inject_Z (ttl self))%Q))
  ∧ naps taken.2.2 = naps quiet
  ∧ given.1 = Ret tt
  ∧ _lock_acquired given.2.1 = false
  ∧ keyspace (srv given.2.2) = delete (lock_key self) (keyspace (srv quiet))
  ∧ sent given.2.2
    = (Eval UnlockScript (lock_key self) (lock_value self)
       :: SetEx (lock_key self) (lock_value self) (ttl self) true :: sent quiet)%list.
Proof.
  apply (acquire_then_release (newcomer "me" "kb") quiet 0).
  - split; [by eexists|]. split; [reflexivity|]. intros sl. vm_compute. discriminate.
  - reflexivity.
  - reflexivity.
  - reflexivity.
Defined.

(** X17.  A lock that is not released is free again once its [ttl] seconds are
    over: another client then takes it at the first attempt, while the first
    holder still believes it holds the lock; when that one releases at last,
    the record of the new holder stays. *)
Theorem expired_lock_taken_over (first second : RedisDistributedLock) (w : world)
    (fuel : nat) (d : Q) :
  lock_ready first w → (0 < ttl first)%Z → (0 < acquire_timeout first)%Q →
  peek (srv w) (lock_key first) = None →
  lock_key second = lock_key first → lock_value second ≠ lock_value first →
  (0 < ttl second)%Z → (0 < acquire_timeout second)%Q →
  (inject_Z (ttl first) <= d)%Q →
  let taken := acquire_lock (S fuel) (first, w) in
  let later := with_srv (tick d (srv taken.2.2)) taken.2.2 in
  let taken2 := acquire_lock (S fuel) (second, later) in
  let given := release_lock (taken.2.1, taken2.2.2) in
  taken.1 = Ret true
  ∧ taken2.1 = Ret true
  ∧ _lock_acquired taken.2.1 = true ∧ _lock_acquired taken2.2.1 = true
  ∧ naps taken2.2.2 = naps w
  ∧ peek (srv taken2.2.2) (lock_key first) = Some (RString (lock_value second))
  ∧ srv given.2.2 = srv taken2.2.2.
Proof.
  intros Hready Httl Htimeout Hfree Hkey Hval Httl2 Htimeout2 Hd. cbv zeta.
  pose proof Hready as ([c Hc] & Hf & Hstr).
  rewrite (acquire_lock_writes fuel first w) by done.
  cbn [fst snd _lock_acquired].
  set (w1 := with_log _ (with_srv _ (with_sent _ w))).
  set (later := with_srv (tick d (srv w1)) w1).
  assert (Hks : keyspace (srv later) !! lock_key first
                = Some (mkSlot (RString (lock_value first))
                          (Some (now (srv w) + inject_Z (ttl first))%Q)))
    by (cbn; by rewrite lookup_insert_eq).
  assert (Hgone : peek (srv later) (lock_key second) = None).
  { rewrite Hkey. apply (peek_expired _ _ _ _ Hks). cbn. rewrite Qred_correct. lra. }
  assert (Hready2 : lock_ready second later).
  { split; [by exists c|]. split; [done|]. rewrite Hkey. intros sl. rewrite Hks.
    intros [= <-]. by eexists. }
  rewrite (acquire_lock_writes fuel second later) by done.
  cbn [fst snd _lock_acquired].
  split; [done|]. split; [done|]. split; [done|]. split; [done|]. split; [done|].
  match goal with |- context [release_lock (?s, ?x)] => set (holder1 := s); set (w2 := x) end.
  assert (Hp2 : peek (srv w2) (lock_key first) = Some (RString (lock_value second))).
  { unfold w2. cbn [srv with_log with_srv with_sent]. rewrite Hkey. by apply put_live. }
  split; [done|].
  apply release_lock_foreign; [done|].
  cbn [holder1 lock_key lock_value]. rewrite Hp2. by intros [= ?].
Qed.

Lemma expired_lock_taken_over_witness :
  let first := newcomer "one" "kb" in
  let second := newcomer "two" "kb" in
  let taken := acquire_lock 1 (first, quiet) in
  let later := with_srv (tick 1800 (srv taken.2.2)) taken.2.2 in
  let taken2 := acquire_lock 1 (second, later) in
  let given := release_lock (taken.2.1, taken2.2.2) in
  taken.1 = Ret true
  ∧ taken2.1 = Ret true
  ∧ _lock_acquired taken.2.1 = true ∧ _lock_acquired taken2.2.1 = true
  ∧ naps taken2.2.2 = naps quiet
  ∧ peek (srv taken2.2.2) (lock_key first) = Some (RString (lock_value second))
  ∧ srv given.2.2 = srv taken2.2.2.
Proof.
  apply (expired_lock_taken_over (newcomer "one" "kb") (newcomer "two" "kb") quiet 0 1800).
  - split; [by eexists|]. split; [reflexivity|]. intros sl. vm_compute. discriminate.
  - reflexivity.
  - reflexivity.
  - reflexivity.
  - reflexivity.
  - vm_compute. discriminate.
  - reflexivity.
  - reflexivity.
  - vm_compute. discriminate.
Defined.

(** * Further properties of [graphrag/general/index.py] *)

Lemma acquire_lock_raises fuel self w msg w' :
  redis_call (SetEx (lock_key self) (lock_value self) (ttl self) true) w = (Raise msg, w') →
  (0 < acquire_timeout self)%Q →
  acquire_lock (S fuel) (self, w) = (Raise msg, (self, w')).
Proof.
  intros Hcall Htimeout.
  unfold acquire_lock. cbn [bind self_ io time_time fst snd].
  cbn [acquire_loop]. unfold bind at 1. cbn [self_ fst snd].
  unfold bind at 1. unfold io at 1, time_time at 1. cbn [fst snd].
  destruct (Qlt_le_dec (now (srv w)) (now (srv w) + acquire_timeout self)) as [_|Hge]; [|lra].
  unfold bind at 1. unfold io at 1. cbn [fst snd]. by rewrite Hcall.
Qed.

Section pipeline_properties.

Context {Graph : Type}.

(** A [with] statement whose lock raises: the body does not run. *)
Lemma with__raises {A} fuel uuid4 kb_id (body : P Graph A) (ps : pstate Graph) msg w' :
  redis_call (SetEx kb_id uuid4 (60 * 30) true) (redis ps) = (Raise msg, w') →
  with_ (S fuel) (kb_lock uuid4 kb_id) body ps
  = (Raise msg, mkPstate w' (graphs ps) (events ps)).
Proof.
  intros Hcall. unfold with_. unfold bind at 1. unfold on_lock at 1, __enter__.
  unfold bind at 1.
  rewrite (acquire_lock_raises fuel (kb_lock uuid4 kb_id) (redis ps) msg w'); done.
Qed.



Variable nx_Graph : Graph.
Variable add_node : string → string → Graph → Graph.
Variable add_edge : string → string → Q → Graph → Graph.
Variable number_of_nodes : Graph → nat.
Variable extractor : list (string * string) → list entity * list relation.
Variable graph_merge : Graph → Graph → Graph.
Variable pagerank_nhop : Graph → nat → Graph.
Variable EntityResolution : Graph → resolution Graph.
Variable CommunityReportsExtractor : Graph → reports.
Variable index_name tokenize fine_grained_tokenize : string → string.
Variable dumps_report : string → string → string.
Variable chunk_id : chunk → string.

Local Abbreviation Dealer :=
  (Dealer__init__ Graph nx_Graph add_node add_edge extractor graph_merge pagerank_nhop).
Local Abbreviation WithResolution :=
  (WithResolution__init__ Graph number_of_nodes pagerank_nhop EntityResolution index_name).
Local Abbreviation WithCommunity :=
  (WithCommunity__init__ Graph number_of_nodes CommunityReportsExtractor index_name
     tokenize fine_grained_tokenize dumps_report chunk_id).

(** X18.  When the first command of the lock raises (no client object, or the
    connection fails), the exception leaves [acquire_lock], [__enter__] and
    the pipeline: unlike a timeout, it keeps the body of the [with] statement
    from running, and nothing is loaded, persisted or sent to the index. *)
Theorem lock_error_stops_pipelines fuel uuid4 tenant_id kb_id chunks callback
    (ps : pstate Graph) msg w' :
  redis_call (SetEx kb_id uuid4 (60 * 30) true) (redis ps) = (Raise msg, w') →
  Dealer (S fuel) uuid4 tenant_id kb_id chunks ps
  = (Raise msg, mkPstate w' (graphs ps) (Extracted chunks :: events ps))
  ∧ WithResolution (S fuel) uuid4 tenant_id kb_id callback ps
    = (Raise msg, mkPstate w' (graphs ps) (events ps))
  ∧ WithCommunity (S fuel) uuid4 tenant_id kb_id callback ps
    = (Raise msg, mkPstate w' (graphs ps) (events ps)).
Proof.
  intros Hcall. split; [|split].
  - unfold Dealer__init__. unfold bind at 1. unfold emit at 1.
    destruct (extractor chunks) as [ents rels]. cbv beta iota.
    by rewrite (with__raises fuel uuid4 kb_id _ _ msg w').
  - unfold WithResolution__init__. unfold bind at 1.
    by rewrite (with__raises fuel uuid4 kb_id _ _ msg w').
  - unfold WithCommunity__init__. unfold bind at 1.
    by rewrite (with__raises fuel uuid4 kb_id _ _ msg w').
Qed.




End pipeline_properties.

Lemma lock_error_stops_pipelines_witness :
  let ps := mkPstate (with_faults [Some "Connection refused"] quiet)
              (∅ : gmap (string * string) (demo.Graph * list string)) [] in
  let w' := with_faults [] (with_sent (SetEx "kb" "me" (60 * 30) true) (redis ps)) in
  demo.Dealer 1 "me" "tenant" "kb" [("d1", "alpha")] ps
  = (Raise "Connection refused",
     mkPstate w' (graphs ps) (Extracted [("d1", "alpha")] :: events ps))
  ∧ demo.WithResolution 1 "me" "tenant" "kb" true ps
    = (Raise "Connection refused", mkPstate w' (graphs ps) (events ps))
  ∧ demo.WithCommunity 1 "me" "tenant" "kb" true ps
    = (Raise "Connection refused", mkPstate w' (graphs ps) (events ps)).
Proof.
  intros ps w'.
  apply (lock_error_stops_pipelines (Graph := demo.Graph) [] demo.add_node demo.add_edge
           (@length string) demo.extractor demo.graph_merge (fun g _ => g)
           (fun g => mkResolution g []) (fun g => mkReports [] []) demo.index_name
           id id (fun rep ev => rep) docnm_kwd 0 "me" "tenant" "kb" [("d1", "alpha")] true
           ps "Connection refused" w').
  reflexivity.
Defined.




(** ** Objects and sorted sets *)

Section objects.

Context {pyobj : Type} (json_dumps : bool → pyobj → string).

(** X2.  [set_obj] stores the JSON text of the object, written without ASCII
    escapes; until the [exp] seconds are over [get] hands that text back
    and [exist] answers 1, afterwards [None] and 0. *)
Theorem set_obj_then_get k obj exp (w : world) client (d : Q) :
  REDIS w = Some client → faults w = [] → (0 < exp)%Z → (0 <= d)%Q →
  let w1 := (set_obj pyobj json_dumps k obj exp w).2 in
  let later := with_srv (tick d (srv w1)) w1 in
  (set_obj pyobj json_dumps k obj exp w).1 = Ret true
  ∧ (get k later).1
    = Ret (if Qlt_le_dec d (inject_Z exp) then RStr (json_dumps false obj) else RNone)
  ∧ (exist k later).1 = Ret (RInt (if Qlt_le_dec d (inject_Z exp) then 1 else 0)).
Proof.
  intros HR Hf Hexp Hd. cbv zeta.
  destruct w as [s f se lg R cfg op np]. cbn in HR, Hf. subst R f.
  unfold set_obj, get, exist, try_except, bind, redis_call, client_call.
  cbn [REDIS faults srv exec fst snd with_srv with_sent].
  unfold srv_set. destruct (Z.leb_spec exp 0) as [|_]; [lia|].
  cbn [andb fst snd REDIS faults srv exec with_srv with_sent ret].
  split; [done|].
  unfold srv_get, srv_exists. rewrite peek_tick. cbn [put keyspace now].
  rewrite lookup_insert_eq. unfold live. cbn [sl_expire sl_value].
  destruct (Qlt_le_dec (Qred (now s + d)) (now s + inject_Z exp)) as [H1|H1];
    destruct (Qlt_le_dec d (inject_Z exp)) as [H2|H2]; rewrite Qred_correct in H1;
    try done; lra.
Qed.

End objects.

Lemma set_obj_then_get_witness :
  let w1 := (set_obj string (fun _ s => s) "k" "v" 3600 quiet).2 in
  let later := with_srv (tick 3600 (srv w1)) w1 in
  (set_obj string (fun _ s => s) "k" "v" 3600 quiet).1 = Ret true
  ∧ (get "k" later).1
    = Ret (if Qlt_le_dec 3600 (inject_Z 3600) then RStr "v" else RNone)
  ∧ (exist "k" later).1 = Ret (RInt (if Qlt_le_dec 3600 (inject_Z 3600) then 1 else 0)).
Proof.
  apply (set_obj_then_get (fun _ s => s) "k" "v" 3600 quiet 0%nat 3600);
    [reflexivity|reflexivity|lia|].
  vm_compute. discriminate.
Defined.

Lemma In_zinsert x y l : In y (zinsert x l) ↔ y = x ∨ In y l.
Proof.
  induction l as [|z l IH]; cbn; [intuition|].
  destruct (scored_leb x z); cbn; [intuition|]. rewrite IH. intuition.
Qed.

Lemma In_zremove m y l : In y (zremove m l) ↔ In y l ∧ y.1 ≠ m.
Proof.
  unfold zremove. rewrite filter_In, negb_true_iff. by rewrite String.eqb_neq.
Qed.

(** The scored members a sorted-set query sees under [k]. *)
Lemma zadd_scores m sc l lo hi m' :
  In m' (map fst (List.filter (in_range lo hi) (zinsert (m, sc) (zremove m l))))
  ↔ (m' = m ∧ in_range lo hi (m, sc) = true)
    ∨ (m' ≠ m ∧ In m' (map fst (List.filter (in_range lo hi) l))).
Proof.
  rewrite !in_map_iff. split.
  - intros ([n q] & <- & Hin). apply filter_In in Hin as [Hin Hr].
    apply In_zinsert in Hin as [[= -> ->]|Hin]; [by left|].
    apply In_zremove in Hin as [Hin Hne]. right. split; [done|].
    exists (n, q). split; [done|]. by apply filter_In.
  - intros [[-> Hr]|[Hne ([n q] & <- & Hin)]].
    + exists (m, sc). split; [done|]. apply filter_In. split; [|done].
      apply In_zinsert. by left.
    + apply filter_In in Hin as [Hin Hr]. exists (n, q). split; [done|].
      apply filter_In. split; [|done]. apply In_zinsert. right. by apply In_zremove.
Qed.

(** X6.  [zadd] on a key that is free or holds a sorted set returns [True] and
    gives the member its score, replacing the one it had: a following
    [zrangebyscore] lists the member exactly when its new score is in the
    range, lists the other members as before, and [zcount] counts what
    [zrangebyscore] lists. *)
Theorem zadd_then_range k m sc lo hi (w : world) client :
  REDIS w = Some client → faults w = [] →
  (peek (srv w) k = None ∨ ∃ l, peek (srv w) k = Some (RZSet l)) →
  (zadd k m sc w).1 = Ret true
  ∧ ∃ names,
      (zrangebyscore k lo hi (zadd k m sc w).2).1 = Ret (RNames names)
      ∧ (zcount k lo hi (zadd k m sc w).2).1 = Ret (RInt (Z.of_nat (length names)))
      ∧ (In m names ↔ (lo <= sc)%Q ∧ (sc <= hi)%Q)
      ∧ ∀ m', m' ≠ m →
          (In m' names
           ↔ In m' (map fst (List.filter (in_range lo hi) (scored k (srv w))))).
Proof.
  intros HR Hf Hk. destruct w as [s f se lg R cfg op np]. cbn in HR, Hf, Hk. subst R f.
  assert (Hrange : in_range lo hi (m, sc) = true ↔ (lo <= sc)%Q ∧ (sc <= hi)%Q).
  { unfold in_range. cbn. by rewrite andb_true_iff, !Qle_bool_iff. }
  assert (∃ l0, scored k s = l0
                ∧ (zadd k m sc (mkWorld s [] se lg (Some client) cfg op np)).1 = Ret true
                ∧ peek (srv (zadd k m sc (mkWorld s [] se lg (Some client) cfg op np)).2) k
                  = Some (RZSet (zinsert (m, sc) (zremove m l0)))
                ∧ REDIS (zadd k m sc (mkWorld s [] se lg (Some client) cfg op np)).2
                  = Some client
                ∧ faults (zadd k m sc (mkWorld s [] se lg (Some client) cfg op np)).2 = [])
    as (l0 & Hl0 & Hret & Hpeek & HR' & Hf').
  { unfold scored, zadd, try_except, bind, redis_call, client_call.
    cbn [REDIS faults srv exec fst snd with_srv with_sent].
    unfold srv_zadd. destruct Hk as [Hk|[l Hk]]; rewrite Hk; eexists; (split; [done|]).
    - cbn. by rewrite peek_put.
    - cbn. by rewrite peek_store. }
  split; [done|].
  destruct (zadd k m sc _) as [o w1]. cbn [fst snd] in *.
  destruct w1 as [s1 f1 se1 lg1 R1 cfg1 op1 np1]. cbn in Hpeek, HR', Hf'. subst R1 f1.
  unfold zrangebyscore, zcount, try_except, bind, redis_call, client_call.
  cbn [REDIS faults srv exec fst snd with_srv with_sent].
  unfold srv_zrangebyscore, srv_zcount. rewrite Hpeek. cbn [fst snd ret].
  eexists. split; [done|]. split; [by rewrite length_map|]. rewrite Hl0. split.
  - rewrite zadd_scores, Hrange. intuition.
  - intros m' Hne. rewrite zadd_scores. intuition.
Qed.

Lemma zadd_then_range_witness :
  (zadd "z" "a" 2 quiet).1 = Ret true
  ∧ ∃ names,
      (zrangebyscore "z" 1 3 (zadd "z" "a" 2 quiet).2).1 = Ret (RNames names)
      ∧ (zcount "z" 1 3 (zadd "z" "a" 2 quiet).2).1 = Ret (RInt (Z.of_nat (length names)))
      ∧ (In "a" names ↔ (1 <= 2)%Q ∧ (2 <= 3)%Q)
      ∧ ∀ m', m' ≠ "a" →
          (In m' names
           ↔ In m' (map fst (List.filter (in_range 1 3) (scored "z" (srv quiet))))).
Proof.
  apply (zadd_then_range "z" "a" 2 1 3 quiet 0%nat); [reflexivity|reflexivity|].
  left. reflexivity.
Defined.
